(** * ClangCompleter: the asynchronous completion engine of YouCompleteMe

    A shallow embedding of [cpp/ycm/ClangCompleter.cpp].

    - The members of the [ClangCompleter] object that several threads touch
      are the fields of the record [shared].
    - The public member functions are programs of a small monad [prog]
      whose only effectful constructor, [Atomic], is one indivisible access
      to [shared]: a critical section under a [lock_guard], one operation
      on a [ConcurrentLatestValue], or one call of [boost] or [libclang].
      [run] executes a program without interference; the interleaving
      semantics [step] executes it one [Atomic] at a time.
    - The three thread main functions are program-counter machines whose
      transitions are the blocks of the loops of the source. *)

From Stdlib Require Import ZArith Ascii String List Sorted.
From stdpp Require Import base option list gmap strings.

Local Open Scope string_scope.
Local Open Scope list_scope.

(** ** Data *)

(** [UnsavedFile]: an editor buffer that differs from the file on disk. *)
Record UnsavedFile := mkUnsavedFile {
  unsaved_filename_ : string;
  unsaved_contents_ : string
}.

(** [CompletionData]: one raw candidate. The source copies, stores and
    returns these records and never looks inside them. *)
Definition CompletionData := string.

(** [Diagnostic]: the only member the source reads is [kind_], a [char]. *)
Record Diagnostic := mkDiagnostic {
  kind_ : ascii;
  text_ : string
}.

(** A [CXTranslationUnit] is a pointer into memory owned by libclang.  The
    pointee is modelled by what it was parsed from; everything libclang
    derives from it is a function of the [Analyzer] below. *)
Definition CXTranslationUnit := nat.

Record TranslationUnit := mkTranslationUnit {
  unit_filename : string;
  unit_flags : list string;
  unit_unsaved : list UnsavedFile;
  unit_reparses : nat
}.

(** The exceptions the source distinguishes: [boost::thread_interrupted],
    which [SortingThreadMain] catches, and any other C++ exception. *)
Inductive exn :=
| thread_interrupted
| std_exception (what : string).

(** The threads of the program. *)
Inductive thread_id :=
| Caller
| FileParseThread
| ClangCompletionsThread
| SortingThread (i : nat).

(** [packaged_task]s.  A task is the closure it was built from; [make_shared]
    gives every completion task a fresh identity, which is also the
    identity of its future. *)
Record VoidTask := mkVoidTask {
  parse_filename : string;
  parse_unsaved : list UnsavedFile;
  parse_flags : list string
}.

Record SortingTask := mkSortingTask {
  sorting_id : nat;
  sorting_query : string
}.

Record ClangTask := mkClangTask {
  clang_id : nat;
  clang_filename : string;
  clang_line : Z;
  clang_column : Z;
  clang_unsaved : list UnsavedFile;
  clang_flags : list string
}.

(** [Future< AsyncCompletions >]: default constructed (empty), or the
    future of the task with the given identity. *)
Definition Future := option nat.
Definition EmptyFuture : Future := None.

(** ** The shared members of [ClangCompleter] *)

Record shared := mkShared {
  threading_enabled_ : bool;
  filename_to_translation_unit_ : gmap string CXTranslationUnit;
  clang_units : gmap CXTranslationUnit TranslationUnit;
  clang_access_mutex_ : option thread_id;
  file_parse_task_ : option VoidTask;
  clang_completions_task_ : option ClangTask;
  sorting_task_ : option SortingTask;
  latest_clang_results_ : list CompletionData;
  clang_data_ready_ : bool;
  interruption_requested_ : list bool;
  allocated_tasks : nat
}.

Definition set_threading_enabled_ (b : bool) (s : shared) : shared :=
  mkShared b (filename_to_translation_unit_ s) (clang_units s)
    (clang_access_mutex_ s) (file_parse_task_ s) (clang_completions_task_ s)
    (sorting_task_ s) (latest_clang_results_ s) (clang_data_ready_ s)
    (interruption_requested_ s) (allocated_tasks s).

Definition set_filename_to_translation_unit_
    (m : gmap string CXTranslationUnit) (s : shared) : shared :=
  mkShared (threading_enabled_ s) m (clang_units s)
    (clang_access_mutex_ s) (file_parse_task_ s) (clang_completions_task_ s)
    (sorting_task_ s) (latest_clang_results_ s) (clang_data_ready_ s)
    (interruption_requested_ s) (allocated_tasks s).

Definition set_clang_units
    (h : gmap CXTranslationUnit TranslationUnit) (s : shared) : shared :=
  mkShared (threading_enabled_ s) (filename_to_translation_unit_ s) h
    (clang_access_mutex_ s) (file_parse_task_ s) (clang_completions_task_ s)
    (sorting_task_ s) (latest_clang_results_ s) (clang_data_ready_ s)
    (interruption_requested_ s) (allocated_tasks s).

Definition set_clang_access_mutex_ (o : option thread_id) (s : shared) : shared :=
  mkShared (threading_enabled_ s) (filename_to_translation_unit_ s)
    (clang_units s) o (file_parse_task_ s) (clang_completions_task_ s)
    (sorting_task_ s) (latest_clang_results_ s) (clang_data_ready_ s)
    (interruption_requested_ s) (allocated_tasks s).

Definition set_file_parse_task_ (t : option VoidTask) (s : shared) : shared :=
  mkShared (threading_enabled_ s) (filename_to_translation_unit_ s)
    (clang_units s) (clang_access_mutex_ s) t (clang_completions_task_ s)
    (sorting_task_ s) (latest_clang_results_ s) (clang_data_ready_ s)
    (interruption_requested_ s) (allocated_tasks s).

Definition set_clang_completions_task_ (t : option ClangTask) (s : shared) : shared :=
  mkShared (threading_enabled_ s) (filename_to_translation_unit_ s)
    (clang_units s) (clang_access_mutex_ s) (file_parse_task_ s) t
    (sorting_task_ s) (latest_clang_results_ s) (clang_data_ready_ s)
    (interruption_requested_ s) (allocated_tasks s).

Definition set_sorting_task_ (t : option SortingTask) (s : shared) : shared :=
  mkShared (threading_enabled_ s) (filename_to_translation_unit_ s)
    (clang_units s) (clang_access_mutex_ s) (file_parse_task_ s)
    (clang_completions_task_ s) t (latest_clang_results_ s)
    (clang_data_ready_ s) (interruption_requested_ s) (allocated_tasks s).

Definition set_latest_clang_results_ (r : list CompletionData) (s : shared) : shared :=
  mkShared (threading_enabled_ s) (filename_to_translation_unit_ s)
    (clang_units s) (clang_access_mutex_ s) (file_parse_task_ s)
    (clang_completions_task_ s) (sorting_task_ s) r (clang_data_ready_ s)
    (interruption_requested_ s) (allocated_tasks s).

Definition set_clang_data_ready_ (b : bool) (s : shared) : shared :=
  mkShared (threading_enabled_ s) (filename_to_translation_unit_ s)
    (clang_units s) (clang_access_mutex_ s) (file_parse_task_ s)
    (clang_completions_task_ s) (sorting_task_ s) (latest_clang_results_ s)
    b (interruption_requested_ s) (allocated_tasks s).

Definition set_interruption_requested_ (l : list bool) (s : shared) : shared :=
  mkShared (threading_enabled_ s) (filename_to_translation_unit_ s)
    (clang_units s) (clang_access_mutex_ s) (file_parse_task_ s)
    (clang_completions_task_ s) (sorting_task_ s) (latest_clang_results_ s)
    (clang_data_ready_ s) l (allocated_tasks s).

Definition set_allocated_tasks (n : nat) (s : shared) : shared :=
  mkShared (threading_enabled_ s) (filename_to_translation_unit_ s)
    (clang_units s) (clang_access_mutex_ s) (file_parse_task_ s)
    (clang_completions_task_ s) (sorting_task_ s) (latest_clang_results_ s)
    (clang_data_ready_ s) (interruption_requested_ s) n.

(** ** Effects and programs *)

(** What a member function does to other threads, in program order. *)
Inductive effect :=
| ClearedDataReady
| InterruptedAll
| SetSortingTask (t : SortingTask)
| SetClangCompletionsTask (t : ClangTask)
| SetFileParseTask (t : VoidTask)
| NotifiedFileParse.

Definition atomic (R : Type) : Type := shared -> R * shared * list effect.

Inductive prog (A : Type) : Type :=
| Ret (a : A)
| Atomic {R : Type} (f : atomic R) (k : R -> prog A).
Arguments Ret {A} a.
Arguments Atomic {A R} f k.

Fixpoint bind {A B} (p : prog A) (g : A -> prog B) : prog B :=
  match p with
  | Ret a => g a
  | Atomic f k => Atomic f (fun r => bind (k r) g)
  end.

Definition atomically {R} (f : atomic R) : prog R := Atomic f Ret.

Notation "'let*' x ':=' p 'in' q" := (bind p (fun x => q))
  (at level 10, x name, p at level 100, q at level 200).
Notation "p ';;' q" := (bind p (fun _ => q))
  (at level 100, q at level 200, right associativity).

(** [run p s]: the result, final state and effects of [p] when no other
    thread takes a step in between. *)
Fixpoint run {A} (p : prog A) (s : shared) : A * shared * list effect :=
  match p with
  | Ret a => (a, s, [])
  | Atomic f k =>
      let '(r, s1, e1) := f s in
      let '(a, s2, e2) := run (k r) s1 in
      (a, s2, e1 ++ e2)
  end.

(** ** The mutex that serialises every use of libclang *)

(** [unique_lock< mutex > lock( clang_access_mutex_, try_to_lock_t() )]:
    takes the mutex when it is free, and reports failure at once when it is
    not. *)
Definition try_to_lock (me : thread_id) : atomic bool := fun s =>
  match clang_access_mutex_ s with
  | None => (true, set_clang_access_mutex_ (Some me) s, [])
  | Some _ => (false, s, [])
  end.

(** The destructor of a [unique_lock] that owns the mutex. *)
Definition unlock : atomic unit := fun s =>
  (tt, set_clang_access_mutex_ None s, []).

(** ** libclang and the helpers of [ClangUtils.h]

    These are not part of [ClangCompleter.cpp]; the embedding takes them as
    the operations of an [Analyzer].  The two conversions are C++ code and
    may throw; the libclang entry points are C.  A unit pointer that is
    null or dangling reads as [None]. *)
Record Analyzer := mkAnalyzer {
  CXDiagnostic : Type;
  CXCodeCompleteResults : Type;
  clang_getNumDiagnostics : TranslationUnit -> nat;
  clang_getDiagnostic : TranslationUnit -> nat -> CXDiagnostic;
  CXDiagnosticToDiagnostic : CXDiagnostic -> Diagnostic;
  clang_codeCompleteAt :
    option TranslationUnit -> string -> Z -> Z -> list UnsavedFile ->
    CXCodeCompleteResults;
  ToCompletionDataVector : CXCodeCompleteResults -> exn + list CompletionData
}.

(** [clang_parseTranslationUnit]: a new unit in libclang's memory, built
    from the file, the command line and the buffers. *)
Definition clang_parseTranslationUnit (filename : string)
    (flags : list string) (unsaved_files : list UnsavedFile)
    (s : shared) : CXTranslationUnit * shared :=
  let unit := fresh (dom (clang_units s)) in
  (unit,
   set_clang_units
     (<[unit := mkTranslationUnit filename flags unsaved_files 0]>
        (clang_units s)) s).

(** [clang_reparseTranslationUnit]: the unit is parsed again in place, with
    the command line it was created with and the buffers given now. *)
Definition reparsed (unsaved_files : list UnsavedFile)
    (u : TranslationUnit) : TranslationUnit :=
  mkTranslationUnit (unit_filename u) (unit_flags u) unsaved_files
    (S (unit_reparses u)).

Definition clang_reparseTranslationUnit (unit : CXTranslationUnit)
    (unsaved_files : list UnsavedFile) (s : shared) : shared :=
  set_clang_units (alter (reparsed unsaved_files) unit (clang_units s)) s.

(** ** The synchronous member functions *)

(** Lines 305-339. *)
Definition CreateTranslationUnit (filename : string)
    (unsaved_files : list UnsavedFile) (flags : list string)
    (s : shared) : CXTranslationUnit * shared :=
  let '(unit, s1) := clang_parseTranslationUnit filename flags unsaved_files s in
  (unit, clang_reparseTranslationUnit unit unsaved_files s1).

(** Lines 144-169.  [ToCXUnsavedFiles] only changes the representation of
    the buffers. *)
Definition UpdateTranslationUnit (filename : string)
    (unsaved_files : list UnsavedFile) (flags : list string)
    (s : shared) : shared :=
  match filename_to_translation_unit_ s !! filename with
  | Some unit => clang_reparseTranslationUnit unit unsaved_files s
  | None =>
      let '(unit, s1) := CreateTranslationUnit filename unsaved_files flags s in
      set_filename_to_translation_unit_
        (<[filename := unit]> (filename_to_translation_unit_ s1)) s1
  end.

(** Lines 342-358. *)
Definition GetTranslationUnitForFile (filename : string)
    (unsaved_files : list UnsavedFile) (flags : list string)
    (s : shared) : CXTranslationUnit * shared :=
  match filename_to_translation_unit_ s !! filename with
  | Some unit => (unit, s)
  | None =>
      let '(unit, s1) := CreateTranslationUnit filename unsaved_files flags s in
      (unit,
       set_filename_to_translation_unit_
         (<[filename := unit]> (filename_to_translation_unit_ s1)) s1)
  end.

Section WithAnalyzer.

Context (clang : Analyzer).

(** Lines 196-230.  The result is what the call returns or the exception it
    leaves with. *)
Definition CandidatesForLocationInFile (filename : string) (line column : Z)
    (unsaved_files : list UnsavedFile) (flags : list string)
    (s : shared) : (exn + list CompletionData) * shared :=
  let '(unit, s1) := GetTranslationUnitForFile filename unsaved_files flags s in
  let results :=
    clang_codeCompleteAt clang (clang_units s1 !! unit)
      filename line column unsaved_files in
  (ToCompletionDataVector clang results, s1).

(** Lines 124-131: the loop over the diagnostics of [unit], from index [i],
    with [remaining] iterations to go. *)
Fixpoint diagnostics_loop (u : TranslationUnit) (remaining i : nat)
    (diagnostics : list Diagnostic) : list Diagnostic :=
  match remaining with
  | O => diagnostics
  | S remaining' =>
      let diagnostic :=
        CXDiagnosticToDiagnostic clang (clang_getDiagnostic clang u i) in
      diagnostics_loop u remaining' (S i)
        (if Ascii.eqb (kind_ diagnostic) "I"
         then diagnostics
         else diagnostics ++ [diagnostic])
  end.

(** Lines 115-133: the part of [DiagnosticsForFile] that runs with the
    mutex held. *)
Definition diagnostics_of_unit (filename : string) (s : shared)
    : list Diagnostic :=
  match filename_to_translation_unit_ s !! filename with
  | None => []
  | Some unit =>
      match clang_units s !! unit with
      | None => []
      | Some u => diagnostics_loop u (clang_getNumDiagnostics clang u) 0 []
      end
  end.

(** Lines 107-134. *)
Definition DiagnosticsForFile (filename : string) : prog (list Diagnostic) :=
  let* owns_lock := atomically (try_to_lock Caller) in
  if negb owns_lock then Ret []
  else
    let* diagnostics :=
      atomically (fun s => (diagnostics_of_unit filename s, s, [])) in
    atomically unlock ;;
    Ret diagnostics.

End WithAnalyzer.

(** Lines 137-141. *)
Definition UpdatingTranslationUnit : prog bool :=
  let* owns_lock := atomically (try_to_lock Caller) in
  (if owns_lock then atomically unlock else Ret tt) ;;
  Ret (negb owns_lock).

(** Lines 184-192: the critical section of [UpdateTranslationUnitAsync]
    under [file_parse_task_mutex_]. *)
Definition offer_file_parse_task (functor : VoidTask) : atomic unit := fun s =>
  match file_parse_task_ s with
  | Some _ => (tt, s, [])
  | None =>
      (tt, set_file_parse_task_ (Some functor) s,
       [SetFileParseTask functor; NotifiedFileParse])
  end.

(** Lines 172-193. *)
Definition UpdateTranslationUnitAsync (filename : string)
    (unsaved_files : list UnsavedFile) (flags : list string) : prog unit :=
  let functor := mkVoidTask filename unsaved_files flags in
  atomically (offer_file_parse_task functor).

(** ** [ConcurrentLatestValue] *)

(** Modelled from the spec: [ConcurrentLatestValue.h] is missing.  The
    mailbox is a single slot; [Set] "always overwrites and notifies all
    waiters"; [Get] "blocks the calling thread until a value has been set at
    least once since mailbox creation, then returns the current value
    without removing it". *)
Definition ConcurrentLatestValue_Set {T} (data : T)
    (slot : option T) : option T :=
  Some data.

(** Modelled from the spec: [ConcurrentLatestValue.h] is missing.  [None]
    is a thread that has to wait. *)
Definition ConcurrentLatestValue_Get {T} (slot : option T) : option T :=
  slot.

Definition sorting_task_Set (task : SortingTask) : atomic unit := fun s =>
  (tt, set_sorting_task_ (ConcurrentLatestValue_Set task (sorting_task_ s)) s,
   [SetSortingTask task]).

Definition clang_completions_task_Set (task : ClangTask) : atomic unit := fun s =>
  (tt,
   set_clang_completions_task_
     (ConcurrentLatestValue_Set task (clang_completions_task_ s)) s,
   [SetClangCompletionsTask task]).

(** ** [CandidatesForQueryAndLocationInFileAsync] *)

(** Lines 252-255. *)
Definition clear_clang_data_ready : atomic unit := fun s =>
  (tt, set_clang_data_ready_ false s, [ClearedDataReady]).

(** Line 260, [sorting_threads_.interrupt_all()]: an interruption is
    requested of every thread of the group; a thread acts on it at its next
    interruption point. *)
Definition interrupt_all : atomic unit := fun s =>
  (tt,
   set_interruption_requested_
     (map (fun _ => true) (interruption_requested_ s)) s,
   [InterruptedAll]).

(** [make_shared< packaged_task< AsyncCompletions > >]: a new task. *)
Definition allocate_task : atomic nat := fun s =>
  (allocated_tasks s, set_allocated_tasks (S (allocated_tasks s)) s, []).

Definition read_threading_enabled : atomic bool := fun s =>
  (threading_enabled_ s, s, []).

Definition empty (query : string) : bool := String.eqb query "".

(** Lines 263-301: what follows the first [if ( query.empty() )]. *)
Definition submit_tasks (query filename : string) (line column : Z)
    (unsaved_files : list UnsavedFile) (flags : list string) : prog Future :=
  let* id := atomically allocate_task in
  let task := mkSortingTask id query in
  let future := Some id in
  atomically (sorting_task_Set task) ;;
  (if empty query then
     let* id' := atomically allocate_task in
     let task' :=
       mkClangTask id' filename line column unsaved_files flags in
     atomically (clang_completions_task_Set task')
   else Ret tt) ;;
  Ret future.

(** Lines 233-302. *)
Definition CandidatesForQueryAndLocationInFileAsync (query filename : string)
    (line column : Z) (unsaved_files : list UnsavedFile)
    (flags : list string) : prog Future :=
  let* threading_enabled := atomically read_threading_enabled in
  if negb threading_enabled then Ret EmptyFuture
  else if empty query then
    let* updating := UpdatingTranslationUnit in
    if updating then Ret EmptyFuture
    else
      atomically clear_clang_data_ready ;;
      atomically interrupt_all ;;
      submit_tasks query filename line column unsaved_files flags
  else submit_tasks query filename line column unsaved_files flags.

(** ** The constructor and [EnableThreading] *)

(** Lines 77-83. *)
Definition ClangCompleter_new : shared :=
  mkShared false ∅ ∅ None None None None [] false [] 0.


(** Lines 100-104 and 406-411: the flag is set and the group of sorting
    threads is filled; no interruption is requested of a new thread. *)
Definition EnableThreading (sorting_threads : nat) (s : shared) : shared :=
  set_interruption_requested_
    (interruption_requested_ s ++ replicate sorting_threads false)
    (set_threading_enabled_ true s).

(** ** The thread main functions *)

(** [boost::this_thread::interruption_point], as the waits of
    [boost::condition_variable] run it: when an interruption of sorting
    thread [i] has been requested, the request is consumed and
    [thread_interrupted] is thrown. *)
Definition interruption_requested (i : nat) (s : shared) : bool :=
  match interruption_requested_ s !! i with
  | Some true => true
  | _ => false
  end.

Definition consume_interruption (i : nat) (s : shared) : shared :=
  set_interruption_requested_ (<[i := false]> (interruption_requested_ s)) s.

(** *** [SortingThreadMain], lines 486-517 *)

Inductive sorting_pc :=
| SortingLoopHead                  (* 493-495: first test of the flag *)
| SortingWaiting                   (* 497: inside [wait] *)
| SortingGet                       (* 501-502: inside [sorting_task_.Get()] *)
| SortingRun (task : SortingTask)  (* 504-509 *)
| SortingExited (x : exn).         (* an exception left the function *)

Inductive sorting_event :=
| ObservedReady (ready : bool)
| Fetched (task : SortingTask)
| Ran (task : SortingTask) (ready : bool)
| Interrupted
| Uncaught (x : exn).

Inductive sorting_outcome :=
| Continues (pc : sorting_pc) (e : sorting_event)
| Throws (x : exn).

(** The [try] block, lines 490-510.  [None]: the thread cannot move.
    [Ran task ready] records the value of [clang_data_ready_] at the moment
    the task is invoked.  What the task computes is kept in its future and
    is not part of [shared]; a task is not asked whether it was invoked
    before.  Taking the reader lock is not an interruption point. *)
Definition SortingThreadMain_try (i : nat) (pc : sorting_pc) (s : shared)
    : option (sorting_outcome * shared) :=
  match pc with
  | SortingLoopHead =>
      if clang_data_ready_ s
      then Some (Continues SortingGet (ObservedReady true), s)
      else Some (Continues SortingWaiting (ObservedReady false), s)
  | SortingWaiting =>
      if interruption_requested i s
      then Some (Throws thread_interrupted, consume_interruption i s)
      else if clang_data_ready_ s
      then Some (Continues SortingGet (ObservedReady true), s)
      else None
  | SortingGet =>
      match ConcurrentLatestValue_Get (sorting_task_ s) with
      | Some task => Some (Continues (SortingRun task) (Fetched task), s)
      | None =>
          if interruption_requested i s
          then Some (Throws thread_interrupted, consume_interruption i s)
          else None
      end
  | SortingRun task =>
      Some (Continues SortingLoopHead (Ran task (clang_data_ready_ s)), s)
  | SortingExited _ => None
  end.

(** The [catch] clause, lines 512-515, and the enclosing [while ( true )]:
    [thread_interrupted] is swallowed and the loop starts over; any other
    exception leaves the thread function. *)
Definition SortingThreadMain_catch (x : exn) : sorting_pc * sorting_event :=
  match x with
  | thread_interrupted => (SortingLoopHead, Interrupted)
  | _ => (SortingExited x, Uncaught x)
  end.

Definition SortingThreadMain_step (i : nat) (pc : sorting_pc) (s : shared)
    : option (sorting_pc * sorting_event * shared) :=
  match SortingThreadMain_try i pc s with
  | None => None
  | Some (Continues pc' e, s') => Some (pc', e, s')
  | Some (Throws x, s') => Some (SortingThreadMain_catch x, s')
  end.

(** *** [FileParseThreadMain], lines 423-444 *)

Inductive parse_pc :=
| ParseWait     (* 427-434 *)
| ParseLock     (* 437 *)
| ParseRun      (* 438-439 *)
| ParseClear.   (* 441-442 *)

Inductive parse_event :=
| ParseWoke
| ParseLocked
| ParseRan (task : VoidTask)
| ParseCleared.

Definition FileParseThreadMain_step (pc : parse_pc) (s : shared)
    : option (parse_pc * parse_event * shared) :=
  match pc with
  | ParseWait =>
      match file_parse_task_ s with
      | Some _ => Some (ParseLock, ParseWoke, s)
      | None => None
      end
  | ParseLock =>
      match clang_access_mutex_ s with
      | None =>
          Some (ParseRun, ParseLocked,
                set_clang_access_mutex_ (Some FileParseThread) s)
      | Some _ => None
      end
  | ParseRun =>
      match file_parse_task_ s with
      | Some task =>
          let s1 :=
            UpdateTranslationUnit (parse_filename task) (parse_unsaved task)
              (parse_flags task) s in
          Some (ParseClear, ParseRan task, set_clang_access_mutex_ None s1)
      | None => None
      end
  | ParseClear => Some (ParseWait, ParseCleared, set_file_parse_task_ None s)
  end.

(** *** [ClangCompletionsThreadMain], lines 447-483 *)

Inductive clang_pc :=
| ClangGet                             (* 452-453 *)
| ClangCheckFileParse (task : ClangTask)   (* 457-461 *)
| ClangLock (task : ClangTask)         (* 464 *)
| ClangRun (task : ClangTask)          (* 465-466 *)
| ClangStore (result : exn + list CompletionData)   (* 468-474 *)
| ClangSetReady                        (* 476-479 *)
| ClangNotify                          (* 481 *)
| ClangExited (x : exn).               (* an exception left the function *)

Inductive clang_event :=
| ClangFetched (task : ClangTask)
| ClangSkipped
| ClangProceeds
| ClangLocked
| ClangRan (task : ClangTask) (result : exn + list CompletionData)
| ClangStored (results : list CompletionData)
| ClangReady
| ClangNotified
| ClangUncaught (x : exn).

Section Extraction.

Context (clang : Analyzer).

(** [( *task )()] on a [packaged_task]: the functor runs, and what it
    returns or throws is kept in the shared state of the future;
    [future.get()] hands the value back or throws the exception again. *)
Definition ClangCompletionsThreadMain_step (pc : clang_pc) (s : shared)
    : option (clang_pc * clang_event * shared) :=
  match pc with
  | ClangGet =>
      match ConcurrentLatestValue_Get (clang_completions_task_ s) with
      | Some task => Some (ClangCheckFileParse task, ClangFetched task, s)
      | None => None
      end
  | ClangCheckFileParse task =>
      match file_parse_task_ s with
      | Some _ => Some (ClangGet, ClangSkipped, s)
      | None => Some (ClangLock task, ClangProceeds, s)
      end
  | ClangLock task =>
      match clang_access_mutex_ s with
      | None =>
          Some (ClangRun task, ClangLocked,
                set_clang_access_mutex_ (Some ClangCompletionsThread) s)
      | Some _ => None
      end
  | ClangRun task =>
      let '(result, s1) :=
        CandidatesForLocationInFile clang (clang_filename task)
          (clang_line task) (clang_column task) (clang_unsaved task)
          (clang_flags task) s in
      Some (ClangStore result, ClangRan task result,
            set_clang_access_mutex_ None s1)
  | ClangStore (inr results) =>
      Some (ClangSetReady, ClangStored results,
            set_latest_clang_results_ results s)
  | ClangStore (inl x) => Some (ClangExited x, ClangUncaught x, s)
  | ClangSetReady => Some (ClangNotify, ClangReady, set_clang_data_ready_ true s)
  | ClangNotify => Some (ClangGet, ClangNotified, s)
  | ClangExited _ => None
  end.

(** The thread left to run on its own for at most [n] transitions. *)
Fixpoint ClangCompletionsThreadMain_steps (n : nat) (pc : clang_pc)
    (s : shared) : clang_pc * shared :=
  match n with
  | O => (pc, s)
  | S n' =>
      match ClangCompletionsThreadMain_step pc s with
      | Some (pc', _, s') => ClangCompletionsThreadMain_steps n' pc' s'
      | None => (pc, s)
      end
  end.

End Extraction.

(** ** The whole program: one caller and the worker threads, interleaved *)

(** The calls the caller can make on a threaded [ClangCompleter]. *)
Inductive call :=
| CallDiagnosticsForFile (filename : string)
| CallUpdateTranslationUnitAsync (filename : string)
    (unsaved_files : list UnsavedFile) (flags : list string)
| CallCandidatesForQueryAndLocationInFileAsync (query filename : string)
    (line column : Z) (unsaved_files : list UnsavedFile)
    (flags : list string).

Inductive label :=
| Calls (c : call)
| CallerDoes (effects : list effect)
| CallerReturns
| Sorting (i : nat) (e : sorting_event)
| Extraction (e : clang_event)
| Parsing (e : parse_event).

(** Which thread takes the next transition. *)
Inductive move :=
| MoveCall (c : call)
| MoveCaller
| MoveSorting (i : nat)
| MoveClangCompletions
| MoveFileParse.

Record system := mkSystem {
  members : shared;
  caller : option (prog unit);
  sorting_threads_ : list sorting_pc;
  clang_completions_thread_ : clang_pc;
  file_parse_thread_ : parse_pc
}.

Section Program.

Context (clang : Analyzer).

Definition program_of (c : call) : prog unit :=
  match c with
  | CallDiagnosticsForFile filename =>
      DiagnosticsForFile clang filename ;; Ret tt
  | CallUpdateTranslationUnitAsync filename unsaved_files flags =>
      UpdateTranslationUnitAsync filename unsaved_files flags
  | CallCandidatesForQueryAndLocationInFileAsync
      query filename line column unsaved_files flags =>
      CandidatesForQueryAndLocationInFileAsync
        query filename line column unsaved_files flags ;; Ret tt
  end.

Definition system_step (m : move) (sys : system) : option (label * system) :=
  match m with
  | MoveCall c =>
      match caller sys with
      | None =>
          Some (Calls c,
                mkSystem (members sys) (Some (program_of c))
                  (sorting_threads_ sys) (clang_completions_thread_ sys)
                  (file_parse_thread_ sys))
      | Some _ => None
      end
  | MoveCaller =>
      match caller sys with
      | None => None
      | Some (Ret _) =>
          Some (CallerReturns,
                mkSystem (members sys) None
                  (sorting_threads_ sys) (clang_completions_thread_ sys)
                  (file_parse_thread_ sys))
      | Some (Atomic f k) =>
          let '(r, s', effects) := f (members sys) in
          Some (CallerDoes effects,
                mkSystem s' (Some (k r))
                  (sorting_threads_ sys) (clang_completions_thread_ sys)
                  (file_parse_thread_ sys))
      end
  | MoveSorting i =>
      match sorting_threads_ sys !! i with
      | None => None
      | Some pc =>
          match SortingThreadMain_step i pc (members sys) with
          | None => None
          | Some (pc', e, s') =>
              Some (Sorting i e,
                    mkSystem s' (caller sys)
                      (<[i := pc']> (sorting_threads_ sys))
                      (clang_completions_thread_ sys)
                      (file_parse_thread_ sys))
          end
      end
  | MoveClangCompletions =>
      match ClangCompletionsThreadMain_step clang
              (clang_completions_thread_ sys) (members sys) with
      | None => None
      | Some (pc', e, s') =>
          Some (Extraction e,
                mkSystem s' (caller sys) (sorting_threads_ sys) pc'
                  (file_parse_thread_ sys))
      end
  | MoveFileParse =>
      match FileParseThreadMain_step (file_parse_thread_ sys) (members sys) with
      | None => None
      | Some (pc', e, s') =>
          Some (Parsing e,
                mkSystem s' (caller sys) (sorting_threads_ sys)
                  (clang_completions_thread_ sys) pc')
      end
  end.

Definition step (sys : system) (l : label) (sys' : system) : Prop :=
  exists m, system_step m sys = Some (l, sys').

(** Executions, with their labels in the order they happened. *)
Inductive exec (sys : system) : list label -> system -> Prop :=
| exec_here : exec sys [] sys
| exec_then tr sys1 l sys2 :
    exec sys tr sys1 -> step sys1 l sys2 -> exec sys (tr ++ [l]) sys2.

(** The program after the constructor and [EnableThreading]
    (lines 400-420), with [n] sorting threads. *)
Definition started (n : nat) : system :=
  mkSystem (EnableThreading n ClangCompleter_new) None
    (replicate n SortingLoopHead) ClangGet ParseWait.

(** A schedule, run from [sys]; [None] if some move of it is not enabled. *)
Fixpoint run_moves (ms : list move) (sys : system)
    : option (list label * system) :=
  match ms with
  | [] => Some ([], sys)
  | m :: ms' =>
      match system_step m sys with
      | None => None
      | Some (l, sys1) =>
          match run_moves ms' sys1 with
          | None => None
          | Some (tr, sys2) => Some (l :: tr, sys2)
          end
      end
  end.

End Program.

(** ** Properties of effect sequences and traces *)

Definition is_ranking_submission (e : effect) : bool :=
  match e with SetSortingTask _ => true | _ => false end.

Definition is_extraction_submission (e : effect) : bool :=
  match e with SetClangCompletionsTask _ => true | _ => false end.

(** [precedes P Q effects]: some effect satisfying [P] comes strictly
    before some effect satisfying [Q]. *)
Fixpoint precedes (P Q : effect -> bool) (effects : list effect) : bool :=
  match effects with
  | [] => false
  | e :: rest => if P e then existsb Q rest else precedes P Q rest
  end.

(** Sorting thread [i] takes no transition in [tr]. *)
Definition quiet (i : nat) (tr : list label) : Prop :=
  forall e, ~ In (Sorting i e) tr.

(** The order the request is said to follow: the extraction task is
    submitted before the ranking task. *)
Definition extraction_submitted_first : Prop :=
  forall (s : shared) (query filename : string) (line column : Z)
         (unsaved_files : list UnsavedFile) (flags : list string),
    empty query = true ->
    threading_enabled_ s = true ->
    clang_access_mutex_ s = None ->
    precedes is_extraction_submission is_ranking_submission
      (run (CandidatesForQueryAndLocationInFileAsync
              query filename line column unsaved_files flags) s).2 = true.

(** Once the flag has been cleared and the sorting threads interrupted, a
    ranking task is only ever invoked with the flag set. *)
Definition ranks_only_when_ready (clang : Analyzer) (n : nat) : Prop :=
  forall tr sys, exec clang (started n) tr sys ->
  forall before between after i task ready,
    tr = before ++ CallerDoes [ClearedDataReady] :: between
                ++ CallerDoes [InterruptedAll] :: after ->
    In (Sorting i (Ran task ready)) after ->
    ready = true.

(** A sorting thread that is blocked at one of its two interruption
    points: in the wait on the condition variable, or in [Get] on a mailbox
    that was never set. *)
Definition waiting (pc : sorting_pc) (s : shared) : Prop :=
  pc = SortingWaiting \/ (pc = SortingGet /\ sorting_task_ s = None).

(** The last transition of sorting thread [i] in [tr] is a test that found
    the flag set. *)
Definition observed_ready (i : nat) (tr : list label) : Prop :=
  exists before after,
    tr = before ++ Sorting i (ObservedReady true) :: after /\ quiet i after.

(** The last two transitions of sorting thread [i] in [tr] are a test that
    found the flag set and, after it, the fetch of [task]. *)
Definition observed_then_fetched (i : nat) (task : SortingTask)
    (tr : list label) : Prop :=
  exists before between after,
    tr = before ++ Sorting i (ObservedReady true)
                :: between ++ Sorting i (Fetched task) :: after
    /\ quiet i between /\ quiet i after.

(** What the position of a sorting thread says about the trace so far. *)
Definition justified (i : nat) (pc : sorting_pc) (tr : list label) : Prop :=
  match pc with
  | SortingGet => observed_ready i tr
  | SortingRun task => observed_then_fetched i task tr
  | _ => True
  end.

(** ** A small analyzer to evaluate the definitions on

    A unit reports one diagnostic per buffer, of the kind named by the
    first character of the buffer; completion yields two candidates at a
    positive line of an existing unit, and no result otherwise, which
    [ToCompletionDataVector] refuses with an exception. *)
Definition sample_diagnostic (d : UnsavedFile) : Diagnostic :=
  mkDiagnostic
    (match unsaved_contents_ d with
     | String c _ => c
     | EmptyString => "E"%char
     end)
    (unsaved_filename_ d).

Definition sample_clang : Analyzer :=
  mkAnalyzer UnsavedFile (option (list string))
    (fun u => length (unit_unsaved u))
    (fun u i => nth i (unit_unsaved u) (mkUnsavedFile "" ""))
    sample_diagnostic
    (fun u _ line _ _ =>
       match u with
       | Some _ => if (0 <? line)%Z then Some ["foo"; "bar"] else None
       | None => None
       end)
    (fun r =>
       match r with
       | Some l => inr l
       | None => inl (std_exception "no results")
       end).

Definition sample_buffers : list UnsavedFile :=
  [mkUnsavedFile "a.c" "Error"; mkUnsavedFile "a.h" "Info";
   mkUnsavedFile "b.h" "Warning"].

(** A threaded completer with one sorting thread. *)
Definition sample_shared : shared := EnableThreading 1 ClangCompleter_new.

(** The same after a synchronous update of [a.c]. *)
Definition sample_parsed : shared :=
  UpdateTranslationUnit "a.c" sample_buffers ["-Wall"] sample_shared.

(** The same while the file-parse thread holds the libclang mutex. *)
Definition sample_busy : shared :=
  set_clang_access_mutex_ (Some FileParseThread) sample_parsed.

Definition sample_request : call :=
  CallCandidatesForQueryAndLocationInFileAsync "" "a.c" 1 1 [] [].

(** A schedule: a first request on an empty query runs to completion and
    the extraction thread publishes its candidates; the sorting thread
    passes the test of the flag and fetches the ranking task; a second
    request on an empty query clears the flag and interrupts; the sorting
    thread then invokes the task it holds. *)
Definition sample_schedule : list move :=
  [MoveCall sample_request] ++ replicate 10 MoveCaller
  ++ replicate 7 MoveClangCompletions
  ++ [MoveSorting 0; MoveSorting 0]
  ++ [MoveCall sample_request] ++ replicate 5 MoveCaller
  ++ [MoveSorting 0].

Definition sample_sorting_task : SortingTask := mkSortingTask 0 "".

Definition sample_clang_task : ClangTask := mkClangTask 1 "a.c" 1 1 [] [].

(** The labels of [sample_schedule] up to the second interruption. *)
Definition sample_prefix : list label :=
  [Calls sample_request;
   CallerDoes []; CallerDoes []; CallerDoes [];
   CallerDoes [ClearedDataReady]; CallerDoes [InterruptedAll];
   CallerDoes []; CallerDoes [SetSortingTask sample_sorting_task];
   CallerDoes []; CallerDoes [SetClangCompletionsTask sample_clang_task];
   CallerReturns;
   Extraction (ClangFetched sample_clang_task);
   Extraction ClangProceeds;
   Extraction ClangLocked;
   Extraction (ClangRan sample_clang_task (inr ["foo"; "bar"]));
   Extraction (ClangStored ["foo"; "bar"]);
   Extraction ClangReady;
   Extraction ClangNotified;
   Sorting 0 (ObservedReady true);
   Sorting 0 (Fetched sample_sorting_task);
   Calls sample_request;
   CallerDoes []; CallerDoes []; CallerDoes [];
   CallerDoes [ClearedDataReady]; CallerDoes [InterruptedAll]].

(** The labels of [sample_schedule]. *)
Definition sample_trace : list label :=
  sample_prefix ++ [Sorting 0 (Ran sample_sorting_task false)].

(** An extraction task at line 0, where [sample_clang] has no results, and
    a completer whose extraction thread has just locked the mutex for it. *)
Definition sample_failing_task : ClangTask := mkClangTask 7 "a.c" 0 1 [] [].

Definition sample_extracting : shared :=
  set_clang_access_mutex_ (Some ClangCompletionsThread)
    (set_latest_clang_results_ ["old"] sample_parsed).

(** A completer with an interruption pending for its sorting thread. *)
Definition sample_interrupted : shared :=
  set_interruption_requested_ [true] sample_shared.

(** ** The rest of the class *)

(** [clang_disposeTranslationUnit]: the unit leaves libclang's memory. *)
Definition clang_disposeTranslationUnit (unit : CXTranslationUnit)
    (s : shared) : shared :=
  set_clang_units (delete unit (clang_units s)) s.

(** Lines 86-95, the destructor: every unit in the map is disposed of.
    The order in which [foreach] visits an [unordered_map] is not
    specified; [map_fold] visits in some order. *)
Definition ClangCompleter_delete (s : shared) : shared :=
  map_fold (fun _ unit s' => clang_disposeTranslationUnit unit s') s
    (filename_to_translation_unit_ s).

(** The file-parse thread left to run on its own for at most [n]
    transitions. *)
Fixpoint FileParseThreadMain_steps (n : nat) (pc : parse_pc) (s : shared)
    : parse_pc * shared :=
  match n with
  | O => (pc, s)
  | S n' =>
      match FileParseThreadMain_step pc s with
      | Some (pc', _, s') => FileParseThreadMain_steps n' pc' s'
      | None => (pc, s)
      end
  end.

(** The map from file names to units and libclang's memory agree: every
    file in the map has a live unit, two files never share a unit, and
    every live unit belongs to a file. *)
Definition units_wf (s : shared) : Prop :=
  (forall filename unit,
     filename_to_translation_unit_ s !! filename = Some unit ->
     is_Some (clang_units s !! unit)) /\
  (forall filename filename' unit,
     filename_to_translation_unit_ s !! filename = Some unit ->
     filename_to_translation_unit_ s !! filename' = Some unit ->
     filename = filename') /\
  (forall unit,
     is_Some (clang_units s !! unit) ->
     exists filename, filename_to_translation_unit_ s !! filename = Some unit).

(** ** [SortCandidatesForQuery]

    [Candidate], [Result], [CandidateRepository] and
    [LetterBitsetFromString] are declared in headers that are not part of
    [ClangCompleter.cpp]; the embedding takes them as the operations of a
    [Matcher]. *)
Record Matcher := mkMatcher {
  Bitset : Type;
  Candidate : Type;
  Result : Type;
  LetterBitsetFromString : string -> Bitset;
  GetCandidatesForStrings : list CompletionData -> list Candidate;
  MatchesQueryBitset : Candidate -> Bitset -> bool;
  QueryMatchResult : Candidate -> string -> Result;
  IsSubsequence : Result -> bool;
  Result_less : Result -> Result -> bool
}.

(** Lines 58-71.  [completion_data_] points at an element of the vector
    [completion_datas]: it is the index of that element. *)
Record CompletionDataAndResult (matcher : Matcher) :=
  mkCompletionDataAndResult {
    completion_data_ : nat;
    result_ : Result matcher
  }.
Arguments mkCompletionDataAndResult {matcher} _ _.
Arguments completion_data_ {matcher} _.
Arguments result_ {matcher} _.

(** Lines 64-67, [operator<]. *)
Definition CompletionDataAndResult_less {matcher : Matcher}
    (a b : CompletionDataAndResult matcher) : bool :=
  Result_less matcher (result_ a) (result_ b).

Section Ranking.

Context (matcher : Matcher).

(** [std::sort] with the ordering given; which of two elements that
    compare equal comes first is up to the library. *)
Variable std_sort :
  (CompletionDataAndResult matcher -> CompletionDataAndResult matcher -> bool) ->
  list (CompletionDataAndResult matcher) ->
  list (CompletionDataAndResult matcher).

(** Lines 372-384: the loop, at index [i], over the candidates from [i]
    on. *)
Fixpoint ranking_loop (query : string) (query_bitset : Bitset matcher)
    (repository_candidates : list (Candidate matcher)) (i : nat)
    (data_and_results : list (CompletionDataAndResult matcher))
    : list (CompletionDataAndResult matcher) :=
  match repository_candidates with
  | [] => data_and_results
  | candidate :: rest =>
      if negb (MatchesQueryBitset matcher candidate query_bitset)
      then ranking_loop query query_bitset rest (S i) data_and_results
      else
        let result := QueryMatchResult matcher candidate query in
        if IsSubsequence matcher result
        then ranking_loop query query_bitset rest (S i)
               (data_and_results ++ [mkCompletionDataAndResult i result])
        else ranking_loop query query_bitset rest (S i) data_and_results
  end.

(** Lines 361-397.  [None]: a pointer past the end of [completion_datas]
    is dereferenced at line 393. *)
Definition SortCandidatesForQuery (query : string)
    (completion_datas : list CompletionData)
    : option (list CompletionData) :=
  let query_bitset := LetterBitsetFromString matcher query in
  let repository_candidates :=
    GetCandidatesForStrings matcher completion_datas in
  let data_and_results :=
    ranking_loop query query_bitset repository_candidates 0 [] in
  let sorted := std_sort CompletionDataAndResult_less data_and_results in
  mapM (fun data_and_result =>
          completion_datas !! completion_data_ data_and_result)
       sorted.

(** The completion datas whose candidate passes both tests of the loop,
    in the order of [completion_datas]. *)
Definition matching (query : string)
    (completion_datas : list CompletionData) : list CompletionData :=
  map fst
    (List.filter
       (fun dc : CompletionData * Candidate matcher =>
          MatchesQueryBitset matcher dc.2
            (LetterBitsetFromString matcher query)
          && IsSubsequence matcher (QueryMatchResult matcher dc.2 query))
       (combine completion_datas
          (GetCandidatesForStrings matcher completion_datas))).

End Ranking.

(** A matcher and a sort to evaluate [SortCandidatesForQuery] on: a
    candidate matches a query that is a prefix of it, shorter candidates
    rank first, and the sort is by insertion. *)
Definition sample_matcher : Matcher :=
  mkMatcher string string nat
    (fun query => query)
    (fun completion_datas => completion_datas)
    (fun _ _ => true)
    (fun candidate query =>
       if String.prefix query candidate
       then S (String.length candidate) else 0)
    (fun result => Nat.ltb 0 result)
    Nat.ltb.

Fixpoint sample_insert {A} (less : A -> A -> bool) (x : A) (l : list A)
    : list A :=
  match l with
  | [] => [x]
  | y :: l' => if less y x then y :: sample_insert less x l' else x :: l
  end.

Fixpoint sample_sort {A} (less : A -> A -> bool) (l : list A) : list A :=
  match l with
  | [] => []
  | x :: l' => sample_insert less x (sample_sort less l')
  end.

(** A schedule that leaves the extraction thread inside its locked
    block: a request on an empty query, then three transitions of the
    extraction thread. *)
Definition sample_extracting_schedule : list move :=
  [MoveCall sample_request] ++ replicate 10 MoveCaller
  ++ replicate 3 MoveClangCompletions.

(** A schedule that leaves the file-parse thread inside its locked block:
    an asynchronous update, then two transitions of the file-parse
    thread. *)
Definition sample_parsing_schedule : list move :=
  [MoveCall (CallUpdateTranslationUnitAsync "a.c" [] []);
   MoveCaller; MoveCaller; MoveFileParse; MoveFileParse].

(** ** Invariants of the interleaved program *)

(** What one atomic access of a member function called by the caller may
    do to the members, given whether the caller holds the libclang mutex
    before ([held]) and after ([held']): it never writes the cached
    candidates, never sets the flag, never removes or replaces a pending
    file-parse task, never touches the units, and takes the mutex only
    when it is free and gives it back only when it holds it. *)
Definition caller_guarantee (held : bool) (s s' : shared) (held' : bool)
    : Prop :=
  latest_clang_results_ s' = latest_clang_results_ s /\
  (clang_data_ready_ s' = true -> clang_data_ready_ s = true) /\
  (forall task, file_parse_task_ s = Some task ->
                file_parse_task_ s' = Some task) /\
  filename_to_translation_unit_ s' = filename_to_translation_unit_ s /\
  clang_units s' = clang_units s /\
  (if held
   then (clang_access_mutex_ s' = Some Caller /\ held' = true) \/
        (clang_access_mutex_ s' = None /\ held' = false)
   else (clang_access_mutex_ s' = clang_access_mutex_ s /\ held' = false) \/
        (clang_access_mutex_ s = None /\
         clang_access_mutex_ s' = Some Caller /\ held' = true)).

(** A program all of whose atomic accesses keep to [caller_guarantee], and
    which returns without the mutex. *)
Fixpoint follows_protocol {A} (held : bool) (p : prog A) : Prop :=
  match p with
  | Ret _ => held = false
  | Atomic f k =>
      forall s,
        (held = true -> clang_access_mutex_ s = Some Caller) ->
        exists held',
          caller_guarantee held s (f s).1.2 held' /\
          follows_protocol held' (k (f s).1.1)
  end.

Definition parsing (pc : parse_pc) : bool :=
  match pc with ParseRun => true | _ => false end.

Definition extracting (pc : clang_pc) : bool :=
  match pc with ClangRun _ => true | _ => false end.

(** Who holds the libclang mutex, judging by where the threads are. *)
Definition mutex_holder (caller_holds : bool) (parse : parse_pc)
    (extraction : clang_pc) : option thread_id :=
  if caller_holds then Some Caller
  else if parsing parse then Some FileParseThread
  else if extracting extraction then Some ClangCompletionsThread
  else None.

Definition at_most_one_holder (caller_holds : bool) (parse : parse_pc)
    (extraction : clang_pc) : Prop :=
  (caller_holds = true -> parsing parse = false /\ extracting extraction = false)
  /\ (parsing parse = true -> extracting extraction = false).

(** The candidates of the last [ClangStored] of a trace, [[]] if none. *)
Definition last_stored (tr : list label) : list CompletionData :=
  fold_left
    (fun results l =>
       match l with
       | Extraction (ClangStored results') => results'
       | _ => results
       end)
    tr [].

(** What holds of the members in every reachable state, given whether
    the caller holds the mutex and where the two libclang threads are. *)
Definition members_invariant (caller_holds : bool) (parse : parse_pc)
    (extraction : clang_pc) (s : shared) (tr : list label) : Prop :=
  clang_access_mutex_ s = mutex_holder caller_holds parse extraction /\
  at_most_one_holder caller_holds parse extraction /\
  (parse <> ParseWait -> is_Some (file_parse_task_ s)) /\
  (clang_data_ready_ s = true -> In (Extraction ClangReady) tr) /\
  latest_clang_results_ s = last_stored tr /\
  units_wf s.

Definition invariant (tr : list label) (sys : system) : Prop :=
  exists caller_holds : bool,
    match caller sys with
    | None => caller_holds = false
    | Some p => follows_protocol caller_holds p
    end /\
    members_invariant caller_holds (file_parse_thread_ sys)
      (clang_completions_thread_ sys) (members sys) tr.

(** * Theorems *)

Lemma run_bind {A B} (p : prog A) (g : A -> prog B) (s : shared) :
  run (bind p g) s =
  let '(a, s1, e1) := run p s in
  let '(b, s2, e2) := run (g a) s1 in
  (b, s2, e1 ++ e2).
Proof.
  revert s. induction p as [a | R f k IH]; intros s; simpl.
  - destruct (run (g a) s) as [[b s2] e2]. reflexivity.
  - destruct (f s) as [[r s1] e1]. rewrite IH.
    destruct (run (k r) s1) as [[a s2] e2].
    destruct (run (g a) s2) as [[b s3] e3].
    rewrite app_assoc. reflexivity.
Qed.


Lemma unlock_after_lock (me : thread_id) (s : shared) :
  clang_access_mutex_ s = None ->
  set_clang_access_mutex_ None (set_clang_access_mutex_ (Some me) s) = s.
Proof. intros H. destruct s; simpl in *; subst; reflexivity. Qed.

Lemma empty_true (query : string) : empty query = true -> query = "".
Proof. unfold empty. intros H. apply String.eqb_eq in H. exact H. Qed.

Lemma empty_false (query : string) :
  empty query = false -> exists c q, query = String c q.
Proof.
  destruct query as [| c q]; [discriminate |]. intros _. eauto.
Qed.

(** C2.  A request on an empty query that finds the libclang mutex held
    returns the empty future at once: the members of the completer are what
    they were (the flag is not cleared, no mailbox is written, no
    interruption is requested) and the call has no effect on any other
    thread. *)
Theorem empty_query_dropped_while_busy
    (s : shared) (holder : thread_id) (query filename : string)
    (line column : Z) (unsaved_files : list UnsavedFile)
    (flags : list string) :
  empty query = true ->
  clang_access_mutex_ s = Some holder ->
  run (CandidatesForQueryAndLocationInFileAsync
         query filename line column unsaved_files flags) s
  = (EmptyFuture, s, []).
Proof.
  intros Hq Hbusy. apply empty_true in Hq. subst query.
  cbn. destruct (threading_enabled_ s); cbn; [| reflexivity].
  unfold try_to_lock. rewrite Hbusy. reflexivity.
Qed.

Lemma empty_query_dropped_while_busy_witness :
  run (CandidatesForQueryAndLocationInFileAsync "" "a.c" 1 1 [] [])
      sample_busy
  = (EmptyFuture, sample_busy, []).
Proof.
  apply (empty_query_dropped_while_busy sample_busy FileParseThread);
    reflexivity.
Defined.

(** What a request on an empty query that is not dropped returns, leaves
    behind and does to the other threads. *)
Lemma empty_query_accepted
    (s : shared) (query filename : string) (line column : Z)
    (unsaved_files : list UnsavedFile) (flags : list string) :
  empty query = true ->
  threading_enabled_ s = true ->
  clang_access_mutex_ s = None ->
  let id := allocated_tasks s in
  let task := mkSortingTask id query in
  let task' := mkClangTask (S id) filename line column unsaved_files flags in
  run (CandidatesForQueryAndLocationInFileAsync
         query filename line column unsaved_files flags) s
  = (Some id,
     mkShared true (filename_to_translation_unit_ s) (clang_units s) None
       (file_parse_task_ s) (Some task') (Some task)
       (latest_clang_results_ s) false
       (map (fun _ => true) (interruption_requested_ s)) (S (S id)),
     [ClearedDataReady; InterruptedAll;
      SetSortingTask task; SetClangCompletionsTask task']).
Proof.
  intros Hq Hth Hfree. apply empty_true in Hq. subst query.
  destruct s; simpl in Hth, Hfree; subst. reflexivity.
Qed.

(** C3, as stated, fails: on the sample completer the ranking task is
    submitted first. *)
Lemma extraction_submitted_first_fails : ~ extraction_submitted_first.
Proof.
  intros H.
  specialize (H sample_shared "" "a.c" 1%Z 1%Z [] []
                eq_refl eq_refl eq_refl).
  vm_compute in H. discriminate H.
Qed.

(** C3, amended.  A request on an empty query that is not dropped clears
    the flag, interrupts the sorting threads, submits the ranking task to
    [sorting_task_] and only then submits the extraction task to
    [clang_completions_task_]. *)
Theorem ranking_submitted_before_extraction
    (s : shared) (query filename : string) (line column : Z)
    (unsaved_files : list UnsavedFile) (flags : list string) :
  empty query = true ->
  threading_enabled_ s = true ->
  clang_access_mutex_ s = None ->
  let effects :=
    (run (CandidatesForQueryAndLocationInFileAsync
            query filename line column unsaved_files flags) s).2 in
  effects
  = [ClearedDataReady; InterruptedAll;
     SetSortingTask (mkSortingTask (allocated_tasks s) query);
     SetClangCompletionsTask
       (mkClangTask (S (allocated_tasks s))
          filename line column unsaved_files flags)]
  /\ precedes is_ranking_submission is_extraction_submission effects = true
  /\ precedes is_extraction_submission is_ranking_submission effects = false.
Proof.
  intros Hq Hth Hfree effects. subst effects.
  rewrite (empty_query_accepted s query filename line column unsaved_files
             flags Hq Hth Hfree).
  repeat split.
Qed.

Lemma ranking_submitted_before_extraction_witness :
  let effects :=
    (run (CandidatesForQueryAndLocationInFileAsync "" "a.c" 1 1 [] [])
         sample_shared).2 in
  effects
  = [ClearedDataReady; InterruptedAll;
     SetSortingTask (mkSortingTask 0 "");
     SetClangCompletionsTask (mkClangTask 1 "a.c" 1 1 [] [])]
  /\ precedes is_ranking_submission is_extraction_submission effects = true
  /\ precedes is_extraction_submission is_ranking_submission effects = false.
Proof.
  apply (ranking_submitted_before_extraction sample_shared "" "a.c" 1 1 [] []);
    reflexivity.
Defined.

(** C4.  [UpdateTranslationUnitAsync] on a slot that holds a pending task
    changes nothing and notifies nobody: the task that was pending is still
    the one pending task and the new one is discarded.  On an empty slot the
    new task is installed and the waiters are notified. *)
Theorem pending_file_parse_task_is_kept
    (s : shared) (filename : string) (unsaved_files : list UnsavedFile)
    (flags : list string) :
  (forall pending : VoidTask,
     file_parse_task_ s = Some pending ->
     run (UpdateTranslationUnitAsync filename unsaved_files flags) s
     = (tt, s, [])) /\
  (file_parse_task_ s = None ->
   let task := mkVoidTask filename unsaved_files flags in
   run (UpdateTranslationUnitAsync filename unsaved_files flags) s
   = (tt, set_file_parse_task_ (Some task) s,
      [SetFileParseTask task; NotifiedFileParse])).
Proof.
  split.
  - intros pending H. cbn. unfold offer_file_parse_task. rewrite H.
    reflexivity.
  - intros H. cbn. unfold offer_file_parse_task. rewrite H. reflexivity.
Qed.

Lemma pending_file_parse_task_is_kept_witness :
  let pending := mkVoidTask "a.c" sample_buffers ["-Wall"] in
  let s := set_file_parse_task_ (Some pending) sample_shared in
  run (UpdateTranslationUnitAsync "b.c" [] ["-O2"]) s = (tt, s, []) /\
  run (UpdateTranslationUnitAsync "b.c" [] ["-O2"]) sample_shared
  = (tt, set_file_parse_task_ (Some (mkVoidTask "b.c" [] ["-O2"])) sample_shared,
     [SetFileParseTask (mkVoidTask "b.c" [] ["-O2"]); NotifiedFileParse]).
Proof.
  intros pending s. split.
  - apply (proj1 (pending_file_parse_task_is_kept s "b.c" [] ["-O2"]) pending).
    reflexivity.
  - apply (proj2 (pending_file_parse_task_is_kept sample_shared "b.c" []
                    ["-O2"])).
    reflexivity.
Defined.

(** C7.  A request on a non-empty query never touches the flag, the cached
    candidates, the interruption requests, the extraction mailbox, the
    file-parse slot, the mutex or the translation units, and has no effect
    other than a submission of a ranking task.  On a threaded completer it
    installs exactly one new ranking task, closed over the query, in
    [sorting_task_], and returns the future of that task. *)
Theorem nonempty_query_only_submits_ranking
    (s : shared) (query filename : string) (line column : Z)
    (unsaved_files : list UnsavedFile) (flags : list string) :
  empty query = false ->
  let '(future, s', effects) :=
    run (CandidatesForQueryAndLocationInFileAsync
           query filename line column unsaved_files flags) s in
  (clang_data_ready_ s' = clang_data_ready_ s /\
   latest_clang_results_ s' = latest_clang_results_ s /\
   interruption_requested_ s' = interruption_requested_ s /\
   clang_completions_task_ s' = clang_completions_task_ s /\
   file_parse_task_ s' = file_parse_task_ s /\
   clang_access_mutex_ s' = clang_access_mutex_ s /\
   filename_to_translation_unit_ s' = filename_to_translation_unit_ s /\
   clang_units s' = clang_units s /\
   forall e, In e effects -> is_ranking_submission e = true) /\
  (threading_enabled_ s = true ->
   let task := mkSortingTask (allocated_tasks s) query in
   future = Some (sorting_id task) /\
   s' = set_sorting_task_ (Some task)
          (set_allocated_tasks (S (allocated_tasks s)) s) /\
   effects = [SetSortingTask task]).
Proof.
  intros Hq. destruct (empty_false query Hq) as (c & q & ->).
  destruct s as [th m h mu fp ct st res rdy intr n]. destruct th; cbn.
  - split; [| intros _; repeat split].
    repeat split. intros e [<- | []]. reflexivity.
  - split; [| discriminate]. repeat split. intros e [].
Qed.

Lemma nonempty_query_only_submits_ranking_witness :
  run (CandidatesForQueryAndLocationInFileAsync "fo" "a.c" 1 1 [] [])
      sample_busy
  = (Some 0,
     set_sorting_task_ (Some (mkSortingTask 0 "fo"))
       (set_allocated_tasks 1 sample_busy),
     [SetSortingTask (mkSortingTask 0 "fo")]).
Proof.
  pose proof (nonempty_query_only_submits_ranking sample_busy "fo" "a.c"
                1 1 [] [] eq_refl) as H.
  destruct (run (CandidatesForQueryAndLocationInFileAsync "fo" "a.c" 1 1 [] [])
              sample_busy) as [[future s'] effects].
  destruct H as [_ H]. destruct (H eq_refl) as (-> & -> & ->). reflexivity.
Defined.

(** C8.  [DiagnosticsForFile] called while the libclang mutex is held
    returns the empty vector and leaves every member as it was: the lock is
    only tried.  In the interleaved program the call is over after two
    transitions of the caller alone, while the holder still has the mutex:
    the caller waits for no other thread. *)
Theorem diagnostics_empty_while_busy
    (clang : Analyzer) (s : shared) (holder : thread_id) (filename : string) :
  clang_access_mutex_ s = Some holder ->
  run (DiagnosticsForFile clang filename) s = ([], s, []) /\
  forall (threads : list sorting_pc) (pc : clang_pc) (pc' : parse_pc),
    run_moves clang [MoveCall (CallDiagnosticsForFile filename);
                     MoveCaller; MoveCaller]
      (mkSystem s None threads pc pc')
    = Some ([Calls (CallDiagnosticsForFile filename);
             CallerDoes []; CallerReturns],
            mkSystem s None threads pc pc').
Proof.
  intros H. split.
  - cbn. unfold try_to_lock. rewrite H. reflexivity.
  - intros threads pc pc'. cbn. unfold try_to_lock. rewrite H. reflexivity.
Qed.

Lemma diagnostics_empty_while_busy_witness :
  run (DiagnosticsForFile sample_clang "a.c") sample_busy
  = ([], sample_busy, []) /\
  run_moves sample_clang
    [MoveCall (CallDiagnosticsForFile "a.c"); MoveCaller; MoveCaller]
    (mkSystem sample_busy None [SortingWaiting] ClangGet ParseRun)
  = Some ([Calls (CallDiagnosticsForFile "a.c");
           CallerDoes []; CallerReturns],
          mkSystem sample_busy None [SortingWaiting] ClangGet ParseRun).
Proof.
  destruct (diagnostics_empty_while_busy sample_clang sample_busy
              FileParseThread "a.c" eq_refl) as [Hrun Hmoves].
  split; [exact Hrun | apply Hmoves].
Defined.

(** The loop of [DiagnosticsForFile] is a filter over the diagnostics of
    the unit in index order. *)
Lemma diagnostics_loop_filter
    (clang : Analyzer) (u : TranslationUnit) (remaining i : nat)
    (diagnostics : list Diagnostic) :
  diagnostics_loop clang u remaining i diagnostics
  = diagnostics ++
    List.filter (fun d => negb (Ascii.eqb (kind_ d) "I"))
      (map (fun j => CXDiagnosticToDiagnostic clang
                       (clang_getDiagnostic clang u j))
           (seq i remaining)).
Proof.
  revert i diagnostics.
  induction remaining as [| n IH]; intros i diagnostics; simpl.
  - rewrite app_nil_r. reflexivity.
  - rewrite IH.
    destruct (Ascii.eqb _ "I"); simpl; [reflexivity |].
    rewrite <- app_assoc. reflexivity.
Qed.

(** C9.  When [DiagnosticsForFile] gets the mutex and the file has a unit,
    it returns the diagnostics of the unit, converted, in index order, with
    those of kind ['I'] left out, and leaves every member as it was. *)
Theorem diagnostics_omit_informational
    (clang : Analyzer) (s : shared) (filename : string)
    (unit : CXTranslationUnit) (u : TranslationUnit) :
  clang_access_mutex_ s = None ->
  filename_to_translation_unit_ s !! filename = Some unit ->
  clang_units s !! unit = Some u ->
  run (DiagnosticsForFile clang filename) s
  = (List.filter (fun d => negb (Ascii.eqb (kind_ d) "I"))
       (map (fun i => CXDiagnosticToDiagnostic clang
                        (clang_getDiagnostic clang u i))
            (seq 0 (clang_getNumDiagnostics clang u))),
     s, []).
Proof.
  intros Hfree Hunit Hu. cbn. unfold try_to_lock. rewrite Hfree. cbn.
  rewrite (unlock_after_lock Caller s Hfree).
  unfold diagnostics_of_unit. cbn. rewrite Hunit, Hu.
  rewrite diagnostics_loop_filter. reflexivity.
Qed.

Lemma diagnostics_omit_informational_witness :
  run (DiagnosticsForFile sample_clang "a.c") sample_parsed
  = ([mkDiagnostic "E" "a.c"; mkDiagnostic "W" "b.h"], sample_parsed, []).
Proof.
  apply (diagnostics_omit_informational sample_clang sample_parsed "a.c" 0
           (mkTranslationUnit "a.c" ["-Wall"] sample_buffers 1));
    vm_compute; reflexivity.
Defined.

(** C10.  [UpdateTranslationUnit] on a file that has a unit reparses that
    unit in place with the buffers given: the map still holds the same
    unit, the unit keeps the flags it was created with, no other unit
    changes, and the result is the same whatever flags are passed.  On a
    file without a unit, a new unit is created from the file, the flags and
    the buffers, and stored under the file name; the other entries of the
    map stay. *)
Theorem update_reparses_existing_unit_ignoring_flags
    (s : shared) (filename : string) (unsaved_files : list UnsavedFile)
    (flags : list string) :
  let s' := UpdateTranslationUnit filename unsaved_files flags s in
  (forall unit : CXTranslationUnit,
     filename_to_translation_unit_ s !! filename = Some unit ->
     filename_to_translation_unit_ s' = filename_to_translation_unit_ s /\
     clang_units s' = alter (reparsed unsaved_files) unit (clang_units s) /\
     unit_flags <$> clang_units s' !! unit
       = unit_flags <$> clang_units s !! unit /\
     unit_unsaved <$> clang_units s' !! unit
       = (fun _ => unsaved_files) <$> clang_units s !! unit /\
     forall flags' : list string,
       UpdateTranslationUnit filename unsaved_files flags' s = s') /\
  (filename_to_translation_unit_ s !! filename = None ->
   exists unit : CXTranslationUnit,
     clang_units s !! unit = None /\
     filename_to_translation_unit_ s'
       = <[filename := unit]> (filename_to_translation_unit_ s) /\
     clang_units s'
       = <[unit := mkTranslationUnit filename flags unsaved_files 1]>
           (clang_units s)).
Proof.
  intros s'. subst s'. unfold UpdateTranslationUnit. split.
  - intros unit H. rewrite H. unfold clang_reparseTranslationUnit.
    destruct s as [th m h mu fp ct st res rdy intr n]; simpl in *.
    rewrite !lookup_alter_eq.
    repeat split.
    + destruct (h !! unit); reflexivity.
    + destruct (h !! unit); reflexivity.
  - intros H. rewrite H.
    exists (fresh (dom (clang_units s))). split.
    + apply not_elem_of_dom. apply is_fresh.
    + destruct s as [th m h mu fp ct st res rdy intr n]; simpl in *.
      split; [reflexivity |].
      unfold clang_reparseTranslationUnit. simpl.
      rewrite alter_insert_eq. reflexivity.
Qed.

Lemma update_reparses_existing_unit_ignoring_flags_witness :
  filename_to_translation_unit_
    (UpdateTranslationUnit "a.c" [] ["-O2"] sample_parsed)
  = filename_to_translation_unit_ sample_parsed /\
  UpdateTranslationUnit "a.c" [] [] sample_parsed
  = UpdateTranslationUnit "a.c" [] ["-O2"] sample_parsed /\
  exists unit : CXTranslationUnit,
    filename_to_translation_unit_
      (UpdateTranslationUnit "b.c" [] ["-O2"] sample_parsed) !! "b.c"
    = Some unit.
Proof.
  destruct (update_reparses_existing_unit_ignoring_flags
              sample_parsed "a.c" [] ["-O2"]) as [Hold _].
  destruct (Hold 0 eq_refl) as (Hmap & _ & _ & _ & Hflags).
  destruct (update_reparses_existing_unit_ignoring_flags
              sample_parsed "b.c" [] ["-O2"]) as [_ Hnew].
  destruct (Hnew eq_refl) as (unit & _ & Hmap' & _).
  split; [exact Hmap |]. split; [apply Hflags |].
  exists unit. rewrite Hmap'. apply lookup_insert_eq.
Defined.

(** *** The extraction thread *)

Lemma GetTranslationUnitForFile_frame
    (filename : string) (unsaved_files : list UnsavedFile)
    (flags : list string) (s : shared) :
  let s1 := (GetTranslationUnitForFile filename unsaved_files flags s).2 in
  latest_clang_results_ s1 = latest_clang_results_ s /\
  clang_data_ready_ s1 = clang_data_ready_ s.
Proof.
  unfold GetTranslationUnitForFile.
  destruct (filename_to_translation_unit_ s !! filename); simpl; auto.
Qed.

Lemma CandidatesForLocationInFile_frame
    (clang : Analyzer) (filename : string) (line column : Z)
    (unsaved_files : list UnsavedFile) (flags : list string) (s : shared) :
  let s1 :=
    (CandidatesForLocationInFile clang filename line column
       unsaved_files flags s).2 in
  latest_clang_results_ s1 = latest_clang_results_ s /\
  clang_data_ready_ s1 = clang_data_ready_ s.
Proof.
  unfold CandidatesForLocationInFile.
  pose proof (GetTranslationUnitForFile_frame filename unsaved_files flags s)
    as H.
  destruct (GetTranslationUnitForFile filename unsaved_files flags s)
    as [unit s1].
  exact H.
Qed.

Lemma ClangCompletionsThreadMain_exited
    (clang : Analyzer) (n : nat) (x : exn) (s : shared) :
  ClangCompletionsThreadMain_steps clang n (ClangExited x) s
  = (ClangExited x, s).
Proof. destruct n; reflexivity. Qed.

(** C6.  When the functor of an extraction task throws, the extraction
    thread, however long it is left to run, writes neither
    [latest_clang_results_] nor [clang_data_ready_]: the exception comes
    back out of [future.get()] before the assignment and leaves the thread
    function. *)
Theorem failed_extraction_is_not_published
    (clang : Analyzer) (s : shared) (task : ClangTask) (x : exn) :
  (CandidatesForLocationInFile clang (clang_filename task) (clang_line task)
     (clang_column task) (clang_unsaved task) (clang_flags task) s).1
  = inl x ->
  forall n : nat,
    let '(pc, s') :=
      ClangCompletionsThreadMain_steps clang n (ClangRun task) s in
    latest_clang_results_ s' = latest_clang_results_ s /\
    clang_data_ready_ s' = clang_data_ready_ s /\
    (2 <= n -> pc = ClangExited x).
Proof.
  intros Hthrow n.
  pose proof (CandidatesForLocationInFile_frame clang (clang_filename task)
                (clang_line task) (clang_column task) (clang_unsaved task)
                (clang_flags task) s) as Hframe.
  destruct n as [| [| n]]; simpl.
  - repeat split. lia.
  - destruct (CandidatesForLocationInFile clang _ _ _ _ _ s) as [result s1].
    simpl in *. destruct Hframe as [H1 H2]. repeat split; try assumption. lia.
  - destruct (CandidatesForLocationInFile clang _ _ _ _ _ s) as [result s1].
    simpl in *. subst result. simpl.
    rewrite ClangCompletionsThreadMain_exited. simpl.
    destruct Hframe as [H1 H2]. repeat split; assumption.
Qed.

Lemma failed_extraction_is_not_published_witness :
  let '(pc, s') :=
    ClangCompletionsThreadMain_steps sample_clang 5
      (ClangRun sample_failing_task) sample_extracting in
  latest_clang_results_ s' = ["old"] /\
  clang_data_ready_ s' = false /\
  (2 <= 5 -> pc = ClangExited (std_exception "no results")).
Proof.
  apply (failed_extraction_is_not_published sample_clang sample_extracting
           sample_failing_task (std_exception "no results")).
  reflexivity.
Defined.

(** *** The sorting threads *)

(** C5.  An interruption requested of a sorting thread that is blocked at
    an interruption point is thrown there, consumed, caught by the handler
    inside the loop, and the thread is back at the head of the loop, where
    it tests the flag again.  Whenever the body throws
    [thread_interrupted] the thread goes to the head of the loop, and no
    transition into the exited state is due to [thread_interrupted]. *)
Theorem interruption_restarts_sorting_loop
    (i : nat) (pc : sorting_pc) (s : shared) :
  (interruption_requested i s = true ->
   waiting pc s ->
   let s1 := consume_interruption i s in
   SortingThreadMain_try i pc s = Some (Throws thread_interrupted, s1) /\
   SortingThreadMain_step i pc s = Some (SortingLoopHead, Interrupted, s1) /\
   SortingThreadMain_step i SortingLoopHead s1
   = Some (if clang_data_ready_ s then SortingGet else SortingWaiting,
           ObservedReady (clang_data_ready_ s), s1)) /\
  (forall s1,
     SortingThreadMain_try i pc s = Some (Throws thread_interrupted, s1) ->
     SortingThreadMain_step i pc s = Some (SortingLoopHead, Interrupted, s1)) /\
  (forall x e s1,
     SortingThreadMain_step i pc s = Some (SortingExited x, e, s1) ->
     x <> thread_interrupted).
Proof.
  split; [| split].
  - intros Hint Hwait s1. subst s1.
    assert (Htry : SortingThreadMain_try i pc s
                   = Some (Throws thread_interrupted,
                           consume_interruption i s)).
    { destruct Hwait as [-> | [-> Hnone]]; simpl.
      - rewrite Hint. reflexivity.
      - unfold ConcurrentLatestValue_Get. rewrite Hnone, Hint. reflexivity. }
    split; [exact Htry |]. split.
    + unfold SortingThreadMain_step. rewrite Htry. reflexivity.
    + unfold SortingThreadMain_step. simpl.
      destruct (clang_data_ready_ s); reflexivity.
  - intros s1 Htry. unfold SortingThreadMain_step. rewrite Htry. reflexivity.
  - intros x e s1. unfold SortingThreadMain_step.
    destruct (SortingThreadMain_try i pc s) as [[[pc' e' | y] s2] |] eqn:Htry;
      [| | discriminate].
    + intros [= -> _ _]. exfalso. destruct pc; simpl in Htry;
        repeat match type of Htry with
          | context [if ?b then _ else _] => destruct b
          | context [match ?o with Some _ => _ | None => _ end] => destruct o
          end; discriminate.
    + destruct y; simpl; [discriminate |]. intros [= <- _ _]. discriminate.
Qed.

Lemma interruption_restarts_sorting_loop_witness :
  SortingThreadMain_step 0 SortingWaiting sample_interrupted
  = Some (SortingLoopHead, Interrupted, sample_shared) /\
  SortingThreadMain_step 0 SortingLoopHead sample_shared
  = Some (SortingWaiting, ObservedReady false, sample_shared).
Proof.
  destruct (interruption_restarts_sorting_loop 0 SortingWaiting
              sample_interrupted) as [H _].
  destruct (H eq_refl (or_introl eq_refl)) as (_ & H1 & H2).
  split; [exact H1 | exact H2].
Defined.

(** *** Executions *)

Section Executions.

Context (clang : Analyzer).

Lemma exec_first (sys : system) (l : label) (sys1 : system)
    (tr : list label) (sys2 : system) :
  step clang sys l sys1 -> exec clang sys1 tr sys2 ->
  exec clang sys (l :: tr) sys2.
Proof.
  intros Hstep Hexec. induction Hexec as [| tr sys2 l' sys3 _ IH Hlast].
  - apply (exec_then clang sys [] sys l sys1); [constructor | exact Hstep].
  - rewrite app_comm_cons. eapply exec_then; eassumption.
Qed.

Lemma run_moves_exec (ms : list move) (sys : system) (tr : list label)
    (sys' : system) :
  run_moves clang ms sys = Some (tr, sys') -> exec clang sys tr sys'.
Proof.
  revert sys tr sys'. induction ms as [| m ms IH]; intros sys tr sys'; simpl.
  - intros [= <- <-]. constructor.
  - destruct (system_step clang m sys) as [[l sys1] |] eqn:Hm; [| discriminate].
    destruct (run_moves clang ms sys1) as [[tr1 sys2] |] eqn:Hms;
      [| discriminate].
    intros [= <- <-]. apply exec_first with sys1; [exists m; exact Hm |].
    apply IH. exact Hms.
Qed.

(** A transition of sorting thread [i], seen from the whole program. *)
Lemma system_step_sorting (m : move) (sys : system) (i : nat)
    (e : sorting_event) (sys' : system) :
  system_step clang m sys = Some (Sorting i e, sys') ->
  exists pc pc' s',
    sorting_threads_ sys !! i = Some pc /\
    SortingThreadMain_step i pc (members sys) = Some (pc', e, s') /\
    sorting_threads_ sys' = <[i := pc']> (sorting_threads_ sys).
Proof.
  destruct m as [c | | j | |]; simpl.
  - destruct (caller sys); discriminate.
  - destruct (caller sys) as [[a | R f k] |]; try discriminate.
    destruct (f (members sys)) as [[r s'] effects]. discriminate.
  - destruct (sorting_threads_ sys !! j) as [pc |] eqn:Hpc; [| discriminate].
    destruct (SortingThreadMain_step j pc (members sys))
      as [[[pc' e'] s'] |] eqn:Hstep; [| discriminate].
    intros [= -> -> <-]. exists pc, pc', s'. simpl. auto.
  - destruct (ClangCompletionsThreadMain_step clang _ _) as [[[pc' e'] s'] |];
      discriminate.
  - destruct (FileParseThreadMain_step _ _) as [[[pc' e'] s'] |];
      discriminate.
Qed.

(** A transition of any other thread leaves the sorting threads where
    they are. *)
Lemma system_step_other (m : move) (sys : system) (l : label)
    (sys' : system) :
  system_step clang m sys = Some (l, sys') ->
  (forall i e, l <> Sorting i e) ->
  sorting_threads_ sys' = sorting_threads_ sys.
Proof.
  intros Hstep Hother. destruct m as [c | | j | |]; simpl in Hstep.
  - destruct (caller sys); [discriminate |].
    injection Hstep as <- <-. reflexivity.
  - destruct (caller sys) as [[a | R f k] |]; try discriminate.
    + injection Hstep as <- <-. reflexivity.
    + destruct (f (members sys)) as [[r s'] effects].
      injection Hstep as <- <-. reflexivity.
  - destruct (sorting_threads_ sys !! j) as [pc |]; [| discriminate].
    destruct (SortingThreadMain_step j pc (members sys))
      as [[[pc' e'] s'] |]; [| discriminate].
    injection Hstep as <- <-. exfalso. eapply Hother. reflexivity.
  - destruct (ClangCompletionsThreadMain_step clang _ _)
      as [[[pc' e'] s'] |]; [| discriminate].
    injection Hstep as <- <-. reflexivity.
  - destruct (FileParseThreadMain_step _ _) as [[[pc' e'] s'] |];
      [| discriminate].
    injection Hstep as <- <-. reflexivity.
Qed.

Lemma quiet_nil (i : nat) : quiet i [].
Proof. intros e []. Qed.

Lemma quiet_snoc (i : nat) (tr : list label) (l : label) :
  quiet i tr -> (forall e, l <> Sorting i e) -> quiet i (tr ++ [l]).
Proof.
  intros Hq Hl e Hin. apply in_app_or in Hin as [Hin | [Heq | []]].
  - exact (Hq e Hin).
  - exact (Hl e Heq).
Qed.

Lemma label_of_thread (i : nat) (l : label) :
  (exists e, l = Sorting i e) \/ (forall e, l <> Sorting i e).
Proof.
  destruct l as [c | effects | | j e | e | e];
    try (right; intros e'; discriminate).
  destruct (decide (j = i)) as [-> | Hne].
  - left. exists e. reflexivity.
  - right. intros e' [= Hj _]. contradiction.
Qed.

Lemma justified_other (i : nat) (pc : sorting_pc) (tr : list label)
    (l : label) :
  justified i pc tr -> (forall e, l <> Sorting i e) ->
  justified i pc (tr ++ [l]).
Proof.
  intros Hj Hl. destruct pc; simpl in *; try exact I.
  - destruct Hj as (before & after & -> & Hq).
    exists before, (after ++ [l]). split.
    + rewrite <- app_assoc. reflexivity.
    + apply quiet_snoc; assumption.
  - destruct Hj as (before & between & after & -> & Hq1 & Hq2).
    exists before, between, (after ++ [l]). split; [| split].
    + rewrite <- app_assoc. simpl. rewrite <- app_assoc. reflexivity.
    + exact Hq1.
    + apply quiet_snoc; assumption.
Qed.

(** One transition of sorting thread [i] keeps its position justified. *)
Lemma justified_own (i : nat) (pc pc' : sorting_pc) (e : sorting_event)
    (s s' : shared) (tr : list label) :
  SortingThreadMain_step i pc s = Some (pc', e, s') ->
  justified i pc tr ->
  justified i pc' (tr ++ [Sorting i e]).
Proof.
  unfold SortingThreadMain_step. intros Hstep Hj.
  destruct pc as [| | | task | x]; simpl in Hstep.
  - destruct (clang_data_ready_ s); injection Hstep as <- <- <-; simpl.
    + exists tr, []. split; [reflexivity | apply quiet_nil].
    + exact I.
  - destruct (interruption_requested i s).
    + injection Hstep as <- <- <-. exact I.
    + destruct (clang_data_ready_ s); [| discriminate].
      injection Hstep as <- <- <-. simpl.
      exists tr, []. split; [reflexivity | apply quiet_nil].
  - destruct (ConcurrentLatestValue_Get (sorting_task_ s)) as [task |].
    + injection Hstep as <- <- <-. simpl in *.
      destruct Hj as (before & after & -> & Hq).
      exists before, after, []. split; [| split].
      * rewrite <- app_assoc. reflexivity.
      * exact Hq.
      * apply quiet_nil.
    + destruct (interruption_requested i s); [| discriminate].
      injection Hstep as <- <- <-. exact I.
  - injection Hstep as <- <- <-. exact I.
  - discriminate.
Qed.

(** In every execution, every sorting thread is where the trace says. *)
Lemma exec_justified (n : nat) (tr : list label) (sys : system) :
  exec clang (started n) tr sys ->
  forall i pc, sorting_threads_ sys !! i = Some pc -> justified i pc tr.
Proof.
  induction 1 as [| tr sys1 l sys2 _ IH [m Hm]]; intros i pc Hpc.
  - simpl in Hpc. apply lookup_replicate in Hpc as [-> _]. exact I.
  - destruct (label_of_thread i l) as [[e ->] | Hother].
    + destruct (system_step_sorting m sys1 i e sys2 Hm)
        as (pc0 & pc' & s' & Hpc0 & Hstep & Hthreads).
      rewrite Hthreads in Hpc.
      rewrite list_lookup_insert_eq in Hpc
        by (eapply lookup_lt_Some; eassumption).
      injection Hpc as <-.
      eapply justified_own; [exact Hstep | apply IH; exact Hpc0].
    + destruct l as [c | effects | | j e | e | e].
      1-3, 5-6:
        rewrite (system_step_other m sys1 _ sys2 Hm) in Hpc
          by (intros; discriminate);
        apply justified_other; [apply IH; exact Hpc | exact Hother].
      destruct (system_step_sorting m sys1 j e sys2 Hm)
        as (pc0 & pc' & s' & Hpc0 & Hstep & Hthreads).
      rewrite Hthreads in Hpc.
      assert (j <> i) by (intros ->; exact (Hother e eq_refl)).
      rewrite list_lookup_insert_ne in Hpc by assumption.
      apply justified_other; [apply IH; exact Hpc | exact Hother].
Qed.

End Executions.

Lemma SortingThreadMain_step_ran (i : nat) (pc pc' : sorting_pc)
    (s s' : shared) (task : SortingTask) (ready : bool) :
  SortingThreadMain_step i pc s = Some (pc', Ran task ready, s') ->
  pc = SortingRun task /\ ready = clang_data_ready_ s.
Proof.
  unfold SortingThreadMain_step.
  destruct pc as [| | | task' | x]; simpl.
  - destruct (clang_data_ready_ s); discriminate.
  - destruct (interruption_requested i s); [discriminate |].
    destruct (clang_data_ready_ s); discriminate.
  - destruct (ConcurrentLatestValue_Get (sorting_task_ s)); [discriminate |].
    destruct (interruption_requested i s); discriminate.
  - intros [= _ -> -> _]. split; reflexivity.
  - discriminate.
Qed.

(** The sample schedule is an execution of the program with one sorting
    thread, and its labels are [sample_trace]. *)
Lemma sample_execution :
  exists sys, exec sample_clang (started 1) sample_trace sys.
Proof.
  assert (Hfst : option_map fst
                   (run_moves sample_clang sample_schedule (started 1))
                 = Some sample_trace) by (vm_compute; reflexivity).
  destruct (run_moves sample_clang sample_schedule (started 1))
    as [[tr sys] |] eqn:Hrun; simpl in Hfst; [| discriminate Hfst].
  injection Hfst as Htr. subst tr.
  exists sys. apply run_moves_exec with sample_schedule. exact Hrun.
Qed.

(** C1, as stated, fails: in the sample execution a ranking task is invoked
    after the flag was cleared and the sorting threads were interrupted,
    while the flag is still clear. *)
Lemma ranks_only_when_ready_fails : ~ ranks_only_when_ready sample_clang 1.
Proof.
  intros H. destruct sample_execution as [sys Hexec].
  specialize (H sample_trace sys Hexec
                (firstn 24 sample_prefix) []
                [Sorting 0 (Ran sample_sorting_task false)]
                0 sample_sorting_task false eq_refl (or_introl eq_refl)).
  discriminate H.
Qed.

(** C1, amended.  In every execution, whenever a sorting thread invokes a
    ranking task, the two transitions of that thread just before were a
    test of [clang_data_ready_] that found it set and, after it, the fetch
    of that very task from [sorting_task_]: the thread has observed the
    flag set in the same turn of its loop. *)
Theorem ranking_follows_observed_readiness
    (clang : Analyzer) (n : nat) (tr : list label) (sys : system) :
  exec clang (started n) tr sys ->
  forall before i task ready after,
    tr = before ++ Sorting i (Ran task ready) :: after ->
    observed_then_fetched i task before.
Proof.
  induction 1 as [| tr sys1 l sys2 Hexec IH [m Hm]];
    intros before i task ready after Heq.
  - destruct before; discriminate.
  - destruct after as [| l' after' _] using rev_ind.
    + apply app_inj_tail in Heq as [-> ->].
      destruct (system_step_sorting clang m sys1 i _ sys2 Hm)
        as (pc & pc' & s' & Hpc & Hstep & _).
      apply SortingThreadMain_step_ran in Hstep as [-> _].
      exact (exec_justified clang n before sys1 Hexec i _ Hpc).
    + rewrite app_comm_cons, app_assoc in Heq.
      apply app_inj_tail in Heq as [Heq _].
      exact (IH before i task ready after' Heq).
Qed.

Lemma ranking_follows_observed_readiness_witness :
  observed_then_fetched 0 sample_sorting_task sample_prefix.
Proof.
  destruct sample_execution as [sys Hexec].
  exact (ranking_follows_observed_readiness sample_clang 1 sample_trace sys
           Hexec sample_prefix 0 sample_sorting_task false [] eq_refl).
Defined.

(** * Further properties of the code *)

(** ** Requests *)

(** X1.  On a completer whose threads were never started, a request for
    candidates returns the empty future and changes nothing, whatever the
    query (lines 243-244). *)
Theorem request_without_threading_is_refused
    (s : shared) (query filename : string) (line column : Z)
    (unsaved_files : list UnsavedFile) (flags : list string) :
  threading_enabled_ s = false ->
  run (CandidatesForQueryAndLocationInFileAsync
         query filename line column unsaved_files flags) s
  = (EmptyFuture, s, []).
Proof.
  intros H. cbn. rewrite H. reflexivity.
Qed.

Lemma request_without_threading_is_refused_witness :
  run (CandidatesForQueryAndLocationInFileAsync "fo" "a.c" 1 1 [] [])
      ClangCompleter_new
  = (EmptyFuture, ClangCompleter_new, []).
Proof.
  apply (request_without_threading_is_refused ClangCompleter_new).
  reflexivity.
Defined.

(** X2.  A request on an empty query that is accepted returns the future
    of the ranking task, not of the extraction task; it leaves the mutex
    free, the cached candidates, the units and the file-parse slot as they
    were, clears the flag and requests the interruption of every sorting
    thread. *)
Theorem accepted_empty_query_resets_context
    (s : shared) (query filename : string) (line column : Z)
    (unsaved_files : list UnsavedFile) (flags : list string) :
  empty query = true ->
  threading_enabled_ s = true ->
  clang_access_mutex_ s = None ->
  let '(future, s', _) :=
    run (CandidatesForQueryAndLocationInFileAsync
           query filename line column unsaved_files flags) s in
  future = Some (allocated_tasks s) /\
  sorting_task_ s' = Some (mkSortingTask (allocated_tasks s) query) /\
  clang_completions_task_ s'
  = Some (mkClangTask (S (allocated_tasks s)) filename line column
            unsaved_files flags) /\
  clang_data_ready_ s' = false /\
  length (interruption_requested_ s') = length (interruption_requested_ s) /\
  (forall i, i < length (interruption_requested_ s) ->
             interruption_requested i s' = true) /\
  clang_access_mutex_ s' = None /\
  latest_clang_results_ s' = latest_clang_results_ s /\
  file_parse_task_ s' = file_parse_task_ s /\
  filename_to_translation_unit_ s' = filename_to_translation_unit_ s /\
  clang_units s' = clang_units s.
Proof.
  intros Hq Hth Hfree.
  rewrite (empty_query_accepted s query filename line column unsaved_files
             flags Hq Hth Hfree). simpl.
  repeat split.
  - apply length_map.
  - intros i Hi. unfold interruption_requested. simpl.
    rewrite list_lookup_fmap.
    destruct (lookup_lt_is_Some_2 _ _ Hi) as [b ->]. reflexivity.
Qed.

Lemma accepted_empty_query_resets_context_witness :
  let '(future, s', _) :=
    run (CandidatesForQueryAndLocationInFileAsync "" "a.c" 1 1 [] [])
        sample_parsed in
  future = Some 0 /\ clang_data_ready_ s' = false /\
  interruption_requested 0 s' = true.
Proof.
  pose proof (accepted_empty_query_resets_context sample_parsed "" "a.c"
                1 1 [] [] eq_refl eq_refl eq_refl) as H.
  destruct (run (CandidatesForQueryAndLocationInFileAsync "" "a.c" 1 1 [] [])
              sample_parsed) as [[future s'] effects].
  destruct H as (H1 & _ & _ & H2 & _ & H3 & _).
  split; [exact H1 |]. split; [exact H2 |]. apply H3. vm_compute. lia.
Defined.

(** X3.  Two requests on non-empty queries in a row: the second ranking
    task replaces the first in [sorting_task_], the two futures are
    different, and the first task is in no mailbox any more. *)
Theorem later_ranking_task_replaces_earlier
    (s : shared) (query query' filename filename' : string)
    (line column line' column' : Z)
    (unsaved_files unsaved_files' : list UnsavedFile)
    (flags flags' : list string) :
  empty query = false ->
  empty query' = false ->
  threading_enabled_ s = true ->
  let n := allocated_tasks s in
  run (let* future :=
         CandidatesForQueryAndLocationInFileAsync
           query filename line column unsaved_files flags in
       let* future' :=
         CandidatesForQueryAndLocationInFileAsync
           query' filename' line' column' unsaved_files' flags' in
       Ret (future, future')) s
  = ((Some n, Some (S n)),
     set_sorting_task_ (Some (mkSortingTask (S n) query'))
       (set_allocated_tasks (S (S n)) s),
     [SetSortingTask (mkSortingTask n query);
      SetSortingTask (mkSortingTask (S n) query')]).
Proof.
  intros Hq Hq' Hth.
  destruct (empty_false query Hq) as (c & q & ->).
  destruct (empty_false query' Hq') as (c' & q' & ->).
  destruct s as [th m h mu fp ct st res rdy intr n]. simpl in Hth. subst th.
  reflexivity.
Qed.

Lemma later_ranking_task_replaces_earlier_witness :
  (run (let* future :=
          CandidatesForQueryAndLocationInFileAsync "f" "a.c" 1 1 [] [] in
        let* future' :=
          CandidatesForQueryAndLocationInFileAsync "fo" "a.c" 1 2 [] [] in
        Ret (future, future')) sample_shared).1
  = ((Some 0, Some 1),
     set_sorting_task_ (Some (mkSortingTask 1 "fo"))
       (set_allocated_tasks 2 sample_shared)).
Proof.
  rewrite (later_ranking_task_replaces_earlier sample_shared "f" "fo"
             "a.c" "a.c" 1 1 1 2 [] [] [] [] eq_refl eq_refl eq_refl).
  reflexivity.
Defined.

(** ** The mutex and the diagnostics *)

(** X4.  [UpdatingTranslationUnit] answers whether the mutex is held and
    leaves every member as it was: when it gets the mutex it gives it back
    before it returns. *)
Theorem UpdatingTranslationUnit_probes (s : shared) :
  run UpdatingTranslationUnit s
  = (match clang_access_mutex_ s with Some _ => true | None => false end,
     s, []).
Proof.
  cbn. unfold try_to_lock.
  destruct (clang_access_mutex_ s) as [holder |] eqn:H; cbn.
  - reflexivity.
  - rewrite (unlock_after_lock Caller s H). reflexivity.
Qed.

(** X5.  [DiagnosticsForFile] changes no member in any state, so it never
    returns with the mutex in its hands; and for a file that has no unit
    it returns the empty vector. *)
Theorem DiagnosticsForFile_reads_only
    (clang : Analyzer) (s : shared) (filename : string) :
  let '(diagnostics, s', effects) :=
    run (DiagnosticsForFile clang filename) s in
  s' = s /\ effects = [] /\
  (filename_to_translation_unit_ s !! filename = None -> diagnostics = []).
Proof.
  cbn. unfold try_to_lock.
  destruct (clang_access_mutex_ s) as [holder |] eqn:H; cbn.
  - auto.
  - rewrite (unlock_after_lock Caller s H). repeat split.
    unfold diagnostics_of_unit. simpl. intros ->. reflexivity.
Qed.

Lemma DiagnosticsForFile_reads_only_witness :
  run (DiagnosticsForFile sample_clang "b.c") sample_parsed
  = ([], sample_parsed, []).
Proof.
  pose proof (DiagnosticsForFile_reads_only sample_clang sample_parsed "b.c")
    as H.
  destruct (run (DiagnosticsForFile sample_clang "b.c") sample_parsed)
    as [[diagnostics s'] effects].
  destruct H as (-> & -> & H). rewrite (H eq_refl). reflexivity.
Defined.

(** ** Translation units *)

Lemma units_wf_new : units_wf ClangCompleter_new.
Proof.
  repeat split; simpl.
  - intros filename unit H. rewrite lookup_empty in H. discriminate.
  - intros filename filename' unit H. rewrite lookup_empty in H. discriminate.
  - intros unit [u H]. rewrite lookup_empty in H. discriminate.
Qed.

(** What [CreateTranslationUnit] returns and leaves behind. *)
Lemma CreateTranslationUnit_spec (filename : string)
    (unsaved_files : list UnsavedFile) (flags : list string) (s : shared) :
  let unit := fresh (dom (clang_units s)) in
  CreateTranslationUnit filename unsaved_files flags s
  = (unit,
     set_clang_units
       (<[unit := mkTranslationUnit filename flags unsaved_files 1]>
          (clang_units s)) s)
  /\ clang_units s !! unit = None.
Proof.
  split.
  - unfold CreateTranslationUnit, clang_parseTranslationUnit,
      clang_reparseTranslationUnit.
    destruct s; simpl. rewrite alter_insert_eq. reflexivity.
  - apply not_elem_of_dom. apply is_fresh.
Qed.

(** Storing a new unit under a file that has none keeps the map and the
    memory in agreement. *)
Lemma units_wf_store (s : shared) (filename : string)
    (unit : CXTranslationUnit) (u : TranslationUnit) :
  units_wf s ->
  filename_to_translation_unit_ s !! filename = None ->
  clang_units s !! unit = None ->
  units_wf
    (set_filename_to_translation_unit_
       (<[filename := unit]> (filename_to_translation_unit_ s))
       (set_clang_units (<[unit := u]> (clang_units s)) s)).
Proof.
  intros (Hlive & Hinj & Hown) Hnone Hfresh.
  destruct s as [th m h mu fp ct st res rdy intr n]; simpl in *.
  repeat split; simpl.
  - intros f x Hf. destruct (decide (filename = f)) as [<- | Hne].
    + rewrite lookup_insert_eq in Hf. injection Hf as <-.
      rewrite lookup_insert_eq. eauto.
    + rewrite lookup_insert_ne in Hf by assumption.
      destruct (decide (unit = x)) as [<- | Hx].
      * rewrite lookup_insert_eq. eauto.
      * rewrite lookup_insert_ne by assumption. eapply Hlive; eassumption.
  - intros f f' x Hf Hf'.
    destruct (decide (filename = f)) as [<- | Hne];
      destruct (decide (filename = f')) as [<- | Hne']; try reflexivity.
    + rewrite lookup_insert_eq in Hf. injection Hf as <-.
      rewrite lookup_insert_ne in Hf' by assumption.
      destruct (Hlive _ _ Hf') as [u' Hu']. congruence.
    + rewrite lookup_insert_eq in Hf'. injection Hf' as <-.
      rewrite lookup_insert_ne in Hf by assumption.
      destruct (Hlive _ _ Hf) as [u' Hu']. congruence.
    + rewrite lookup_insert_ne in Hf, Hf' by assumption.
      eapply Hinj; eassumption.
  - intros x Hx. destruct (decide (unit = x)) as [<- | Hne].
    + exists filename. apply lookup_insert_eq.
    + rewrite lookup_insert_ne in Hx by assumption.
      destruct (Hown x Hx) as [f Hf]. exists f.
      rewrite lookup_insert_ne; [exact Hf |]. intros <-. congruence.
Qed.

Lemma units_wf_reparse (s : shared) (unit : CXTranslationUnit)
    (unsaved_files : list UnsavedFile) :
  units_wf s -> units_wf (clang_reparseTranslationUnit unit unsaved_files s).
Proof.
  intros (Hlive & Hinj & Hown).
  destruct s as [th m h mu fp ct st res rdy intr n]; simpl in *.
  assert (Hsome : forall x,
            is_Some (alter (reparsed unsaved_files) unit h !! x)
            <-> is_Some (h !! x)).
  { intros x. destruct (decide (unit = x)) as [<- | Hne].
    - rewrite lookup_alter_eq. apply fmap_is_Some.
    - rewrite lookup_alter_ne by assumption. reflexivity. }
  repeat split; simpl.
  - intros f x Hf. apply Hsome. eapply Hlive; eassumption.
  - exact Hinj.
  - intros x Hx. apply Hown. apply Hsome. exact Hx.
Qed.

Lemma units_wf_update (s : shared) (filename : string)
    (unsaved_files : list UnsavedFile) (flags : list string) :
  units_wf s -> units_wf (UpdateTranslationUnit filename unsaved_files flags s).
Proof.
  intros Hwf. unfold UpdateTranslationUnit.
  destruct (filename_to_translation_unit_ s !! filename) as [unit |] eqn:Hf.
  - apply units_wf_reparse. exact Hwf.
  - destruct (CreateTranslationUnit_spec filename unsaved_files flags s)
      as [-> Hfresh].
    apply (units_wf_store s filename _ _ Hwf Hf Hfresh).
Qed.

Lemma units_wf_get (s : shared) (filename : string)
    (unsaved_files : list UnsavedFile) (flags : list string) :
  units_wf s ->
  units_wf (GetTranslationUnitForFile filename unsaved_files flags s).2.
Proof.
  intros Hwf. unfold GetTranslationUnitForFile.
  destruct (filename_to_translation_unit_ s !! filename) as [unit |] eqn:Hf.
  - exact Hwf.
  - destruct (CreateTranslationUnit_spec filename unsaved_files flags s)
      as [-> Hfresh].
    apply (units_wf_store s filename _ _ Hwf Hf Hfresh).
Qed.


Lemma units_wf_EnableThreading (n : nat) (s : shared) :
  units_wf s -> units_wf (EnableThreading n s).
Proof. intros H. exact H. Qed.

Lemma sample_parsed_wf : units_wf sample_parsed.
Proof.
  apply units_wf_update. apply units_wf_EnableThreading. apply units_wf_new.
Qed.


(** X7.  [UpdateTranslationUnit] on one file leaves the units of all other
    files alone: another file keeps its unit, and that unit is what it
    was. *)
Theorem update_leaves_other_files_alone
    (s : shared) (filename other : string)
    (unsaved_files : list UnsavedFile) (flags : list string)
    (unit : CXTranslationUnit) :
  units_wf s ->
  other <> filename ->
  filename_to_translation_unit_ s !! other = Some unit ->
  let s' := UpdateTranslationUnit filename unsaved_files flags s in
  filename_to_translation_unit_ s' !! other = Some unit /\
  clang_units s' !! unit = clang_units s !! unit.
Proof.
  intros (Hlive & Hinj & Hown) Hne Hother s'. subst s'.
  unfold UpdateTranslationUnit.
  destruct (filename_to_translation_unit_ s !! filename) as [unit' |] eqn:Hf.
  - assert (unit' <> unit).
    { intros ->. apply Hne. eapply Hinj; eassumption. }
    unfold clang_reparseTranslationUnit. destruct s; simpl in *.
    split; [exact Hother |]. apply lookup_alter_ne. assumption.
  - destruct (CreateTranslationUnit_spec filename unsaved_files flags s)
      as [-> Hfresh].
    destruct (Hlive _ _ Hother) as [u Hu].
    destruct s as [th m h mu fp ct st res rdy intr n]; simpl in *. split.
    + rewrite lookup_insert_ne by congruence. exact Hother.
    + apply lookup_insert_ne. intros E. rewrite E in Hfresh. congruence.
Qed.

Lemma update_leaves_other_files_alone_witness :
  let s' := UpdateTranslationUnit "b.c" [] ["-O2"] sample_parsed in
  filename_to_translation_unit_ s' !! "a.c" = Some 0 /\
  clang_units s' !! 0 = clang_units sample_parsed !! 0.
Proof.
  apply (update_leaves_other_files_alone sample_parsed "b.c" "a.c" []
           ["-O2"] 0 sample_parsed_wf).
  - discriminate.
  - reflexivity.
Defined.



(** X9.  [GetTranslationUnitForFile] creates a unit at most once per file:
    called again for the same file, with whatever buffers and flags, it
    returns the unit of the first call and changes nothing. *)
Theorem unit_is_created_once
    (s : shared) (filename : string)
    (unsaved_files unsaved_files' : list UnsavedFile)
    (flags flags' : list string) :
  let '(unit, s1) :=
    GetTranslationUnitForFile filename unsaved_files flags s in
  GetTranslationUnitForFile filename unsaved_files' flags' s1 = (unit, s1).
Proof.
  unfold GetTranslationUnitForFile at 1.
  destruct (filename_to_translation_unit_ s !! filename) as [unit |] eqn:Hf.
  - unfold GetTranslationUnitForFile. rewrite Hf. reflexivity.
  - destruct (CreateTranslationUnit_spec filename unsaved_files flags s)
      as [-> _].
    unfold GetTranslationUnitForFile. destruct s; simpl.
    rewrite lookup_insert_eq. reflexivity.
Qed.

(** X10.  [CandidatesForLocationInFile] on a file that has a unit
    completes on that unit as it stands: nothing is reparsed, no member
    changes, and the flags are not used. *)
Theorem completion_does_not_reparse
    (clang : Analyzer) (s : shared) (filename : string) (line column : Z)
    (unsaved_files : list UnsavedFile) (flags : list string)
    (unit : CXTranslationUnit) :
  filename_to_translation_unit_ s !! filename = Some unit ->
  CandidatesForLocationInFile clang filename line column unsaved_files flags s
  = (ToCompletionDataVector clang
       (clang_codeCompleteAt clang (clang_units s !! unit)
          filename line column unsaved_files),
     s).
Proof.
  intros H. unfold CandidatesForLocationInFile, GetTranslationUnitForFile.
  rewrite H. reflexivity.
Qed.

Lemma completion_does_not_reparse_witness :
  CandidatesForLocationInFile sample_clang "a.c" 1 1 [] ["-O2"] sample_parsed
  = (inr ["foo"; "bar"], sample_parsed).
Proof.
  rewrite (completion_does_not_reparse sample_clang sample_parsed "a.c"
             1 1 [] ["-O2"] 0 eq_refl).
  reflexivity.
Defined.

(** The destructor removes the units of the map and adds none. *)
Lemma ClangCompleter_delete_units (s : shared) :
  (forall filename unit,
     filename_to_translation_unit_ s !! filename = Some unit ->
     clang_units (ClangCompleter_delete s) !! unit = None) /\
  (forall unit u,
     clang_units (ClangCompleter_delete s) !! unit = Some u ->
     clang_units s !! unit = Some u).
Proof.
  unfold ClangCompleter_delete.
  apply (map_fold_weak_ind
           (fun (r : shared) (m : gmap string CXTranslationUnit) =>
              (forall filename unit,
                 m !! filename = Some unit -> clang_units r !! unit = None) /\
              (forall unit u,
                 clang_units r !! unit = Some u ->
                 clang_units s !! unit = Some u))).
  - split; [| auto]. intros f unit Hf. rewrite lookup_empty in Hf.
    discriminate.
  - intros f x m r Hnone [IH1 IH2]. simpl. split.
    + intros g unit Hg. destruct (decide (x = unit)) as [<- | Hne].
      * apply lookup_delete_eq.
      * rewrite lookup_delete_ne by assumption.
        destruct (decide (f = g)) as [<- | Hfg].
        -- rewrite lookup_insert_eq in Hg. congruence.
        -- rewrite lookup_insert_ne in Hg by assumption. eapply IH1. exact Hg.
    + intros unit u Hu. destruct (decide (x = unit)) as [<- | Hne].
      * rewrite lookup_delete_eq in Hu. discriminate.
      * rewrite lookup_delete_ne in Hu by assumption. apply IH2. exact Hu.
Qed.

(** X11.  The destructor frees every unit: when the map and libclang's
    memory agree, no unit is left after it. *)
Theorem destructor_frees_every_unit (s : shared) :
  units_wf s -> clang_units (ClangCompleter_delete s) = ∅.
Proof.
  intros (_ & _ & Hown). apply map_eq. intros unit. rewrite lookup_empty.
  destruct (ClangCompleter_delete_units s) as [Hgone Hsub].
  destruct (clang_units (ClangCompleter_delete s) !! unit) as [u |] eqn:Hu;
    [| reflexivity].
  destruct (Hown unit) as [f Hf]; [eauto |].
  rewrite (Hgone f unit Hf) in Hu. discriminate.
Qed.

Lemma destructor_frees_every_unit_witness :
  clang_units (ClangCompleter_delete sample_parsed) = ∅.
Proof.
  exact (destructor_frees_every_unit sample_parsed
           sample_parsed_wf).
Defined.

(** ** The worker threads on their own *)

(** X12.  When the functor of an extraction task returns, the extraction
    thread gives the mutex back, then stores the candidates, and only then
    sets the flag: at the moment the flag is set the cache already holds
    the new candidates.  After four transitions it is back at [Get]. *)
Theorem successful_extraction_is_published
    (clang : Analyzer) (s s1 : shared) (task : ClangTask)
    (results : list CompletionData) :
  CandidatesForLocationInFile clang (clang_filename task) (clang_line task)
    (clang_column task) (clang_unsaved task) (clang_flags task) s
  = (inr results, s1) ->
  ClangCompletionsThreadMain_steps clang 2 (ClangRun task) s
  = (ClangSetReady,
     set_latest_clang_results_ results (set_clang_access_mutex_ None s1)) /\
  ClangCompletionsThreadMain_steps clang 4 (ClangRun task) s
  = (ClangGet,
     set_clang_data_ready_ true
       (set_latest_clang_results_ results (set_clang_access_mutex_ None s1))).
Proof.
  intros H. simpl. rewrite H. split; reflexivity.
Qed.

Lemma successful_extraction_is_published_witness :
  let '(pc, s') :=
    ClangCompletionsThreadMain_steps sample_clang 4
      (ClangRun sample_clang_task) sample_extracting in
  pc = ClangGet /\ latest_clang_results_ s' = ["foo"; "bar"] /\
  clang_data_ready_ s' = true /\ clang_access_mutex_ s' = None.
Proof.
  destruct (successful_extraction_is_published sample_clang sample_extracting
              sample_extracting sample_clang_task ["foo"; "bar"] eq_refl)
    as [_ ->].
  repeat split.
Defined.




Lemma UpdateTranslationUnit_under_lock (s : shared) (holder : thread_id)
    (filename : string) (unsaved_files : list UnsavedFile)
    (flags : list string) :
  clang_access_mutex_ s = None ->
  set_clang_access_mutex_ None
    (UpdateTranslationUnit filename unsaved_files flags
       (set_clang_access_mutex_ (Some holder) s))
  = UpdateTranslationUnit filename unsaved_files flags s.
Proof.
  intros H. unfold UpdateTranslationUnit.
  destruct s as [th m h mu fp ct st res rdy intr n]; simpl in *. subst mu.
  destruct (m !! filename); reflexivity.
Qed.

Lemma UpdateTranslationUnit_file_parse_task (s : shared)
    (filename : string) (unsaved_files : list UnsavedFile)
    (flags : list string) :
  file_parse_task_ (UpdateTranslationUnit filename unsaved_files flags s)
  = file_parse_task_ s.
Proof.
  unfold UpdateTranslationUnit.
  destruct (filename_to_translation_unit_ s !! filename); reflexivity.
Qed.

(** X14.  One turn of the file-parse thread: with a task pending and the
    mutex free, four transitions later the unit of the task's file has
    been updated with the task's buffers and flags, the mutex is free
    again and the slot is empty, so that the next
    [UpdateTranslationUnitAsync] is accepted. *)
Theorem file_parse_turn
    (s : shared) (task : VoidTask) (filename : string)
    (unsaved_files : list UnsavedFile) (flags : list string) :
  file_parse_task_ s = Some task ->
  clang_access_mutex_ s = None ->
  let s' :=
    set_file_parse_task_ None
      (UpdateTranslationUnit (parse_filename task) (parse_unsaved task)
         (parse_flags task) s) in
  FileParseThreadMain_steps 4 ParseWait s = (ParseWait, s') /\
  (run (UpdateTranslationUnitAsync filename unsaved_files flags) s').1.2
  = set_file_parse_task_ (Some (mkVoidTask filename unsaved_files flags)) s'.
Proof.
  intros Htask Hfree s'. split.
  - subst s'. rewrite <- (UpdateTranslationUnit_under_lock s FileParseThread
                            _ _ _ Hfree).
    destruct s as [th m h mu fp ct st res rdy intr n]; simpl in Htask, Hfree.
    subst fp mu. reflexivity.
  - subst s'. cbn. unfold offer_file_parse_task. reflexivity.
Qed.

Lemma file_parse_turn_witness :
  let s := set_file_parse_task_ (Some (mkVoidTask "b.c" [] ["-O2"]))
             sample_parsed in
  FileParseThreadMain_steps 4 ParseWait s
  = (ParseWait, UpdateTranslationUnit "b.c" [] ["-O2"] sample_parsed).
Proof.
  intros s.
  destruct (file_parse_turn s (mkVoidTask "b.c" [] ["-O2"]) "c.c" [] []
              eq_refl eq_refl) as [-> _].
  reflexivity.
Defined.

(** ** The interleaved program *)

Lemma caller_guarantee_same (held : bool) (s : shared) :
  (held = true -> clang_access_mutex_ s = Some Caller) ->
  caller_guarantee held s s held.
Proof.
  intros H. unfold caller_guarantee. repeat split; auto.
  destruct held; auto.
Qed.

Ltac guarantee :=
  unfold caller_guarantee;
  match goal with
  | s : shared |- _ => destruct s; simpl in *; subst
  end;
  repeat split; auto; try discriminate.

(** Every member function the caller can call keeps to the protocol. *)
Lemma program_of_follows_protocol (clang : Analyzer) (c : call) :
  follows_protocol false (program_of clang c).
Proof.
  destruct c as [filename | filename unsaved_files flags
                 | query filename line column unsaved_files flags].
  - cbn. intros s _. unfold try_to_lock.
    destruct (clang_access_mutex_ s) as [holder |] eqn:Hm; cbn.
    + exists false. split; [apply caller_guarantee_same; discriminate |].
      reflexivity.
    + exists true. split; [guarantee |].
      intros s1 H1. exists true. split; [apply caller_guarantee_same; auto |].
      intros s2 H2. exists false. split; [guarantee | reflexivity].
  - cbn. intros s _. exists false. split; [| reflexivity].
    unfold offer_file_parse_task.
    destruct (file_parse_task_ s) eqn:Hp; cbn.
    + apply caller_guarantee_same. discriminate.
    + unfold caller_guarantee.
      destruct s; simpl in *; subst. repeat split; auto. discriminate.
  - unfold program_of, CandidatesForQueryAndLocationInFileAsync, submit_tasks,
      UpdatingTranslationUnit.
    destruct (empty query) eqn:Hq; cbn.
    + intros s _. exists false.
      split; [apply caller_guarantee_same; discriminate |].
      destruct (threading_enabled_ s); cbn; [| reflexivity].
      intros s1 _. unfold try_to_lock.
      destruct (clang_access_mutex_ s1) as [holder |] eqn:Hm; cbn.
      * exists false. split; [apply caller_guarantee_same; discriminate |].
        reflexivity.
      * exists true. split; [guarantee |].
        intros s2 H2. exists false. split; [guarantee |].
        intros s3 _. exists false. split; [guarantee |].
        intros s4 _. exists false. split; [guarantee |].
        intros s5 _. exists false. split; [guarantee |].
        intros s6 _. exists false. split; [guarantee |].
        intros s7 _. exists false. split; [guarantee |].
        intros s8 _. exists false. split; [guarantee |].
        reflexivity.
    + intros s _. exists false.
      split; [apply caller_guarantee_same; discriminate |].
      destruct (threading_enabled_ s); cbn; [| reflexivity].
      intros s1 _. exists false. split; [guarantee |].
      intros s2 _. exists false. split; [guarantee |].
      reflexivity.
Qed.

Lemma last_stored_snoc (tr : list label) (l : label) :
  last_stored (tr ++ [l])
  = match l with
    | Extraction (ClangStored results) => results
    | _ => last_stored tr
    end.
Proof. unfold last_stored. rewrite fold_left_app. reflexivity. Qed.

Lemma in_snoc {A} (x y : A) (l : list A) : In x l -> In x (l ++ [y]).
Proof. intros H. apply in_or_app. left. exact H. Qed.

Lemma units_wf_ext (s s' : shared) :
  filename_to_translation_unit_ s' = filename_to_translation_unit_ s ->
  clang_units s' = clang_units s ->
  units_wf s -> units_wf s'.
Proof. unfold units_wf. intros -> ->. auto. Qed.

(** The members are in the same relation after a transition that writes
    none of the members the relation reads and adds a label that is no
    publication. *)
Lemma members_invariant_frame (held : bool) (parse : parse_pc)
    (extraction : clang_pc) (s s' : shared) (tr : list label) (l : label) :
  members_invariant held parse extraction s tr ->
  clang_access_mutex_ s' = clang_access_mutex_ s ->
  file_parse_task_ s' = file_parse_task_ s ->
  clang_data_ready_ s' = clang_data_ready_ s ->
  latest_clang_results_ s' = latest_clang_results_ s ->
  filename_to_translation_unit_ s' = filename_to_translation_unit_ s ->
  clang_units s' = clang_units s ->
  (forall results, l <> Extraction (ClangStored results)) ->
  members_invariant held parse extraction s' (tr ++ [l]).
Proof.
  intros (Hm & Hone & Hp & Hr & Hl & Hwf) Em Ep Er El Emap Eunits Hlabel.
  unfold members_invariant. rewrite Em, Ep, Er, El.
  split; [exact Hm |]. split; [exact Hone |]. split; [exact Hp |].
  split; [| split].
  - intros Hready. apply in_snoc. auto.
  - rewrite last_stored_snoc, Hl.
    destruct l as [| | | | [] |]; try reflexivity.
    exfalso. eapply Hlabel. reflexivity.
  - eapply units_wf_ext; eassumption.
Qed.

Lemma UpdateTranslationUnit_shape (filename : string)
    (unsaved_files : list UnsavedFile) (flags : list string) (s : shared) :
  exists m h,
    UpdateTranslationUnit filename unsaved_files flags s
    = set_filename_to_translation_unit_ m (set_clang_units h s).
Proof.
  unfold UpdateTranslationUnit.
  destruct (filename_to_translation_unit_ s !! filename) as [unit |].
  - exists (filename_to_translation_unit_ s),
      (alter (reparsed unsaved_files) unit (clang_units s)).
    unfold clang_reparseTranslationUnit. destruct s; reflexivity.
  - destruct (CreateTranslationUnit_spec filename unsaved_files flags s)
      as [-> _].
    exists (<[filename := fresh (dom (clang_units s))]>
              (filename_to_translation_unit_ s)),
      (<[fresh (dom (clang_units s))
         := mkTranslationUnit filename flags unsaved_files 1]>
         (clang_units s)).
    destruct s; reflexivity.
Qed.

Lemma CandidatesForLocationInFile_shape (clang : Analyzer)
    (filename : string) (line column : Z)
    (unsaved_files : list UnsavedFile) (flags : list string) (s : shared) :
  exists m h,
    (CandidatesForLocationInFile clang filename line column
       unsaved_files flags s).2
    = set_filename_to_translation_unit_ m (set_clang_units h s).
Proof.
  unfold CandidatesForLocationInFile, GetTranslationUnitForFile.
  destruct (filename_to_translation_unit_ s !! filename) as [unit |].
  - exists (filename_to_translation_unit_ s), (clang_units s).
    destruct s; reflexivity.
  - destruct (CreateTranslationUnit_spec filename unsaved_files flags s)
      as [-> _].
    exists (<[filename := fresh (dom (clang_units s))]>
              (filename_to_translation_unit_ s)),
      (<[fresh (dom (clang_units s))
         := mkTranslationUnit filename flags unsaved_files 1]>
         (clang_units s)).
    destruct s; reflexivity.
Qed.

Lemma SortingThreadMain_step_members (i : nat) (pc pc' : sorting_pc)
    (e : sorting_event) (s s' : shared) :
  SortingThreadMain_step i pc s = Some (pc', e, s') ->
  s' = s \/ s' = consume_interruption i s.
Proof.
  unfold SortingThreadMain_step, ConcurrentLatestValue_Get. intros H.
  destruct pc as [| | | task | x]; simpl in H;
    destruct (clang_data_ready_ s), (interruption_requested i s),
      (sorting_task_ s);
    simpl in H; try discriminate; injection H as <- <- <-; auto.
Qed.

Lemma members_invariant_sorting (held : bool) (parse : parse_pc)
    (extraction : clang_pc) (s s' : shared) (tr : list label)
    (i : nat) (pc pc' : sorting_pc) (e : sorting_event) :
  members_invariant held parse extraction s tr ->
  SortingThreadMain_step i pc s = Some (pc', e, s') ->
  members_invariant held parse extraction s' (tr ++ [Sorting i e]).
Proof.
  intros Hinv Hstep.
  apply SortingThreadMain_step_members in Hstep as [-> | ->];
    (eapply members_invariant_frame; [exact Hinv | ..]);
    try reflexivity; discriminate.
Qed.

Lemma members_invariant_caller (held held' : bool) (parse : parse_pc)
    (extraction : clang_pc) (s s' : shared) (tr : list label)
    (effects : list effect) :
  members_invariant held parse extraction s tr ->
  caller_guarantee held s s' held' ->
  members_invariant held' parse extraction s' (tr ++ [CallerDoes effects]).
Proof.
  intros (Hm & [Hone1 Hone2] & Hp & Hr & Hl & Hwf)
         (Gl & Gr & Gp & Gmap & Gunits & Gm).
  unfold members_invariant.
  assert (Hmutex :
            clang_access_mutex_ s' = mutex_holder held' parse extraction /\
            at_most_one_holder held' parse extraction).
  { unfold at_most_one_holder, mutex_holder in *. destruct held.
    - destruct (Hone1 eq_refl) as [Hpa Hex].
      destruct Gm as [[-> ->] | [-> ->]]; rewrite ?Hpa, ?Hex; auto.
    - destruct Gm as [[-> ->] | (Hnone & -> & ->)]; [auto |].
      rewrite Hnone in Hm.
      destruct (parsing parse); [discriminate |].
      destruct (extracting extraction); [discriminate |]. auto. }
  destruct Hmutex as [Hm' Hone'].
  split; [exact Hm' |]. split; [exact Hone' |]. split; [| split; [| split]].
  - intros Hne. destruct (Hp Hne) as [task Htask].
    exists task. apply Gp. exact Htask.
  - intros Hready. apply in_snoc. auto.
  - rewrite last_stored_snoc, Gl. exact Hl.
  - eapply units_wf_ext; eassumption.
Qed.

Ltac settle :=
  repeat split; simpl; try assumption; try discriminate; try contradiction;
  eauto using in_snoc;
  try solve [intuition (eauto using in_snoc; discriminate || congruence)].

Lemma members_invariant_parse (held : bool) (parse parse' : parse_pc)
    (extraction : clang_pc) (s s' : shared) (tr : list label)
    (e : parse_event) :
  members_invariant held parse extraction s tr ->
  FileParseThreadMain_step parse s = Some (parse', e, s') ->
  members_invariant held parse' extraction s' (tr ++ [Parsing e]).
Proof.
  intros (Hm & [Hone1 Hone2] & Hp & Hr & Hl & Hwf) Hstep.
  unfold members_invariant, at_most_one_holder, mutex_holder in *.
  rewrite last_stored_snoc.
  destruct parse; simpl in Hstep.
  - destruct (file_parse_task_ s) as [task |] eqn:Htask; [| discriminate].
    injection Hstep as <- <- <-. simpl in *. destruct Hwf as (? & ? & ?).
    settle.
  - destruct (clang_access_mutex_ s) eqn:Hmu; [discriminate |].
    injection Hstep as <- <- <-. simpl in *.
    destruct held; [discriminate |].
    destruct (extracting extraction); [discriminate |].
    destruct Hwf as (? & ? & ?). settle.
  - destruct (file_parse_task_ s) as [task |] eqn:Htask; [| discriminate].
    injection Hstep as <- <- <-. simpl in *.
    destruct held; [destruct (Hone1 eq_refl); discriminate |].
    rewrite (Hone2 eq_refl).
    destruct (UpdateTranslationUnit_shape (parse_filename task)
                (parse_unsaved task) (parse_flags task) s) as (m & h & E).
    pose proof (units_wf_update s (parse_filename task) (parse_unsaved task)
                  (parse_flags task) Hwf) as Hwf'.
    rewrite E in *. simpl. destruct Hwf' as (? & ? & ?). settle.
  - injection Hstep as <- <- <-. simpl in *. destruct Hwf as (? & ? & ?).
    settle.
Qed.

Lemma members_invariant_clang (clang : Analyzer) (held : bool)
    (parse : parse_pc) (extraction extraction' : clang_pc) (s s' : shared)
    (tr : list label) (e : clang_event) :
  members_invariant held parse extraction s tr ->
  ClangCompletionsThreadMain_step clang extraction s
  = Some (extraction', e, s') ->
  members_invariant held parse extraction' s' (tr ++ [Extraction e]).
Proof.
  intros (Hm & [Hone1 Hone2] & Hp & Hr & Hl & Hwf) Hstep.
  unfold members_invariant, at_most_one_holder, mutex_holder in *.
  rewrite last_stored_snoc.
  destruct extraction as [| task | task | task | [x | results] | | | x];
    simpl in Hstep.
  - unfold ConcurrentLatestValue_Get in Hstep.
    destruct (clang_completions_task_ s) as [task |]; [| discriminate].
    injection Hstep as <- <- <-. simpl in *. destruct Hwf as (? & ? & ?).
    settle.
  - destruct Hwf as (? & ? & ?).
    destruct (file_parse_task_ s) eqn:Htask; injection Hstep as <- <- <-;
      simpl in *; rewrite ?Htask; settle.
  - destruct (clang_access_mutex_ s) eqn:Hmu; [discriminate |].
    injection Hstep as <- <- <-. simpl in *.
    destruct held; [discriminate |].
    destruct (parsing parse); [discriminate |].
    destruct Hwf as (? & ? & ?). settle.
  - destruct (CandidatesForLocationInFile clang _ _ _ _ _ s)
      as [result s1] eqn:Hrun.
    injection Hstep as <- <- <-. simpl in *.
    destruct held; [destruct (Hone1 eq_refl); discriminate |].
    destruct (parsing parse) eqn:Hpa; [discriminate (Hone2 eq_refl) |].
    destruct (CandidatesForLocationInFile_shape clang (clang_filename task)
                (clang_line task) (clang_column task) (clang_unsaved task)
                (clang_flags task) s) as (m & h & E).
    pose proof (units_wf_get s (clang_filename task) (clang_unsaved task)
                  (clang_flags task) Hwf) as Hwf1.
    unfold CandidatesForLocationInFile in Hrun, E.
    destruct (GetTranslationUnitForFile _ _ _ s) as [unit s2].
    injection Hrun as _ <-. simpl in E, Hwf1. subst s2. simpl.
    destruct Hwf1 as (? & ? & ?). settle.
  - injection Hstep as <- <- <-. simpl in *. destruct Hwf as (? & ? & ?).
    settle.
  - injection Hstep as <- <- <-. simpl in *. destruct Hwf as (? & ? & ?).
    settle.
  - injection Hstep as <- <- <-. simpl in *. destruct Hwf as (? & ? & ?).
    settle. intros _. apply in_or_app. right. left. reflexivity.
  - injection Hstep as <- <- <-. simpl in *. destruct Hwf as (? & ? & ?).
    settle.
  - discriminate.
Qed.

Section Invariants.

Context (clang : Analyzer).

Lemma invariant_started (n : nat) : invariant [] (started n).
Proof.
  exists false. split; [reflexivity |].
  unfold members_invariant, at_most_one_holder, mutex_holder. simpl.
  split; [reflexivity |].
  split; [split; intros; discriminate |].
  split; [intros H; contradiction |].
  split; [discriminate |].
  split; [reflexivity |].
  apply (units_wf_EnableThreading n). apply units_wf_new.
Qed.

Lemma invariant_step (tr : list label) (sys : system) (m : move)
    (l : label) (sys' : system) :
  invariant tr sys ->
  system_step clang m sys = Some (l, sys') ->
  invariant (tr ++ [l]) sys'.
Proof.
  intros (held & Hcaller & Hinv) Hstep.
  destruct m as [c | | i | |]; simpl in Hstep.
  - destruct (caller sys) as [p |]; [discriminate |].
    injection Hstep as <- <-. exists false. simpl. subst held.
    split; [apply program_of_follows_protocol |].
    eapply members_invariant_frame; [exact Hinv | ..];
      try reflexivity; discriminate.
  - destruct (caller sys) as [[a | R f k] |]; [| | discriminate].
    + injection Hstep as <- <-. simpl in Hcaller. subst held.
      exists false. simpl. split; [reflexivity |].
      eapply members_invariant_frame; [exact Hinv | ..];
        try reflexivity; discriminate.
    + simpl in Hcaller.
      assert (Hpre : held = true ->
                     clang_access_mutex_ (members sys) = Some Caller).
      { intros ->. destruct Hinv as [-> _]. reflexivity. }
      destruct (Hcaller (members sys) Hpre) as (held' & Hg & Hk).
      destruct (f (members sys)) as [[r s'] effects].
      injection Hstep as <- <-. simpl in *.
      exists held'. split; [exact Hk |].
      eapply members_invariant_caller; eassumption.
  - destruct (sorting_threads_ sys !! i) as [pc |]; [| discriminate].
    destruct (SortingThreadMain_step i pc (members sys))
      as [[[pc' e] s'] |] eqn:Hsort; [| discriminate].
    injection Hstep as <- <-. exists held. simpl.
    split; [exact Hcaller |].
    eapply members_invariant_sorting; eassumption.
  - destruct (ClangCompletionsThreadMain_step clang _ _)
      as [[[pc' e] s'] |] eqn:Hclang; [| discriminate].
    injection Hstep as <- <-. exists held. simpl.
    split; [exact Hcaller |].
    eapply members_invariant_clang; eassumption.
  - destruct (FileParseThreadMain_step _ _)
      as [[[pc' e] s'] |] eqn:Hparse; [| discriminate].
    injection Hstep as <- <-. exists held. simpl.
    split; [exact Hcaller |].
    eapply members_invariant_parse; eassumption.
Qed.

Lemma exec_invariant (n : nat) (tr : list label) (sys : system) :
  exec clang (started n) tr sys -> invariant tr sys.
Proof.
  induction 1 as [| tr sys1 l sys2 _ IH [m Hm]].
  - apply invariant_started.
  - eapply invariant_step; eassumption.
Qed.

(** X15.  The two threads that use libclang exclude each other: in every
    reachable state the file-parse thread is inside its locked block
    (lines 437-439) only while [clang_access_mutex_] is its own, the
    extraction thread is inside its locked block (lines 464-466) only
    while the mutex is its own, so they are never both inside; and when
    the mutex is free, or in the hands of the caller (who reads the
    diagnostics under it), neither is inside. *)
Theorem libclang_threads_exclude_each_other
    (n : nat) (tr : list label) (sys : system) :
  exec clang (started n) tr sys ->
  (file_parse_thread_ sys = ParseRun ->
   clang_access_mutex_ (members sys) = Some FileParseThread) /\
  (forall task,
     clang_completions_thread_ sys = ClangRun task ->
     clang_access_mutex_ (members sys) = Some ClangCompletionsThread) /\
  (forall task,
     ~ (file_parse_thread_ sys = ParseRun /\
        clang_completions_thread_ sys = ClangRun task)) /\
  (clang_access_mutex_ (members sys) = None \/
   clang_access_mutex_ (members sys) = Some Caller ->
   file_parse_thread_ sys <> ParseRun /\
   forall task, clang_completions_thread_ sys <> ClangRun task).
Proof.
  intros Hexec.
  destruct (exec_invariant n tr sys Hexec)
    as (held & _ & Hm & [Hone1 Hone2] & _).
  unfold mutex_holder in Hm.
  split; [| split; [| split]].
  - intros Hp. rewrite Hp in *. simpl in *.
    destruct held; [destruct (Hone1 eq_refl); discriminate | exact Hm].
  - intros task Hc. rewrite Hc in *. simpl in *.
    destruct held; [destruct (Hone1 eq_refl); discriminate |].
    destruct (parsing (file_parse_thread_ sys));
      [discriminate (Hone2 eq_refl) | exact Hm].
  - intros task [Hp Hc]. rewrite Hp, Hc in *. simpl in *.
    discriminate (Hone2 eq_refl).
  - intros [Hfree | Hfree]; rewrite Hfree in Hm; split.
    + intros Hp. rewrite Hp in *. simpl in *. destruct held; discriminate.
    + intros task Hc. rewrite Hc in *. simpl in *.
      destruct held; [discriminate |].
      destruct (parsing (file_parse_thread_ sys)); discriminate.
    + intros Hp. rewrite Hp in *. simpl in *.
      destruct held; [destruct (Hone1 eq_refl) |]; discriminate.
    + intros task Hc. rewrite Hc in *. simpl in *.
      destruct held; [destruct (Hone1 eq_refl); discriminate |].
      destruct (parsing (file_parse_thread_ sys)); discriminate.
Qed.

(** X16.  The file-parse thread never invokes an empty task: whenever it
    is past its wait (lines 436-442), [file_parse_task_] holds a task, and
    at line 438 its transition is enabled and runs exactly that task. *)
Theorem file_parse_thread_always_has_its_task
    (n : nat) (tr : list label) (sys : system) :
  exec clang (started n) tr sys ->
  file_parse_thread_ sys <> ParseWait ->
  exists task,
    file_parse_task_ (members sys) = Some task /\
    (file_parse_thread_ sys = ParseRun ->
     exists sys',
       system_step clang MoveFileParse sys
       = Some (Parsing (ParseRan task), sys')).
Proof.
  intros Hexec Hne.
  destruct (exec_invariant n tr sys Hexec) as (held & _ & _ & _ & Hp & _).
  destruct (Hp Hne) as [task Htask]. exists task. split; [exact Htask |].
  intros Hrun. simpl. rewrite Hrun. simpl. rewrite Htask. eauto.
Qed.

(** X17.  In every reachable state [latest_clang_results_] is the
    candidate set the extraction thread stored last, or empty if it has
    stored none: no other thread and no member function writes it. *)
Theorem cache_holds_last_stored_candidates
    (n : nat) (tr : list label) (sys : system) :
  exec clang (started n) tr sys ->
  latest_clang_results_ (members sys) = last_stored tr.
Proof.
  intros Hexec.
  destruct (exec_invariant n tr sys Hexec) as (held & _ & _ & _ & _ & _ & H & _).
  exact H.
Qed.


Lemma SortingThreadMain_step_observed (i : nat) (pc pc' : sorting_pc)
    (s s' : shared) :
  SortingThreadMain_step i pc s = Some (pc', ObservedReady true, s') ->
  clang_data_ready_ s = true.
Proof.
  unfold SortingThreadMain_step, ConcurrentLatestValue_Get. intros H.
  destruct pc as [| | | task | x]; simpl in H;
    destruct (clang_data_ready_ s), (interruption_requested i s),
      (sorting_task_ s);
    simpl in H; try discriminate; reflexivity.
Qed.

(** A sorting thread finds the flag set only after the extraction thread
    has set it. *)
Lemma observed_after_published (n : nat) (tr : list label) (sys : system) :
  exec clang (started n) tr sys ->
  forall before i after,
    tr = before ++ Sorting i (ObservedReady true) :: after ->
    In (Extraction ClangReady) before.
Proof.
  induction 1 as [| tr sys1 l sys2 Hexec IH [m Hm]];
    intros before i after Heq.
  - destruct before; discriminate.
  - destruct after as [| l' after' _] using rev_ind.
    + apply app_inj_tail in Heq as [-> ->].
      destruct (system_step_sorting clang m sys1 i _ sys2 Hm)
        as (pc & pc' & s' & _ & Hstep & _).
      apply SortingThreadMain_step_observed in Hstep.
      destruct (exec_invariant n before sys1 Hexec)
        as (held & _ & _ & _ & _ & Hr & _).
      exact (Hr Hstep).
    + rewrite app_comm_cons, app_assoc in Heq.
      apply app_inj_tail in Heq as [Heq _].
      exact (IH before i after' Heq).
Qed.

(** X19.  No ranking task is invoked before the first publication: in
    every execution, a sorting thread that invokes a task does so after
    the extraction thread has set the flag at least once. *)
Theorem no_ranking_before_first_publication
    (n : nat) (tr : list label) (sys : system) :
  exec clang (started n) tr sys ->
  forall before i task ready after,
    tr = before ++ Sorting i (Ran task ready) :: after ->
    In (Extraction ClangReady) before.
Proof.
  induction 1 as [| tr sys1 l sys2 Hexec IH [m Hm]];
    intros before i task ready after Heq.
  - destruct before; discriminate.
  - destruct after as [| l' after' _] using rev_ind.
    + apply app_inj_tail in Heq as [-> ->].
      destruct (system_step_sorting clang m sys1 i _ sys2 Hm)
        as (pc & pc' & s' & Hpc & Hstep & _).
      apply SortingThreadMain_step_ran in Hstep as [-> _].
      destruct (exec_justified clang n before sys1 Hexec i _ Hpc)
        as (b1 & b2 & b3 & Hb & _).
      pose proof (observed_after_published n before sys1 Hexec b1 i _ Hb)
        as Hin.
      rewrite Hb. apply in_or_app. left. exact Hin.
    + rewrite app_comm_cons, app_assoc in Heq.
      apply app_inj_tail in Heq as [Heq _].
      exact (IH before i task ready after' Heq).
Qed.

End Invariants.

(** ** Ranking *)

Section RankingProperties.

Context (matcher : Matcher).

Variable std_sort :
  (CompletionDataAndResult matcher -> CompletionDataAndResult matcher -> bool) ->
  list (CompletionDataAndResult matcher) ->
  list (CompletionDataAndResult matcher).

Lemma ranking_loop_app (query : string) (query_bitset : Bitset matcher)
    (repository_candidates : list (Candidate matcher)) (i : nat)
    (data_and_results : list (CompletionDataAndResult matcher)) :
  ranking_loop matcher query query_bitset repository_candidates i
    data_and_results
  = data_and_results
    ++ ranking_loop matcher query query_bitset repository_candidates i [].
Proof.
  revert i data_and_results.
  induction repository_candidates as [| candidate rest IH];
    intros i data_and_results; simpl.
  - rewrite app_nil_r. reflexivity.
  - destruct (MatchesQueryBitset matcher candidate query_bitset); simpl;
      [| apply IH].
    destruct (IsSubsequence matcher _); [| apply IH].
    rewrite IH. rewrite (IH (S i) [_]). rewrite <- app_assoc. reflexivity.
Qed.

(** What the loop collects: for each completion data whose candidate
    passes, in order, its index and the result of its candidate. *)
Lemma ranking_loop_spec (query : string)
    (completion_datas : list CompletionData)
    (repository_candidates : list (Candidate matcher)) :
  forall (i : nat) (rest : list CompletionData),
    (forall j, rest !! j = completion_datas !! (i + j)) ->
    length repository_candidates <= length rest ->
    Forall2
      (fun data_and_result d =>
         completion_datas !! completion_data_ data_and_result = Some d /\
         exists candidate j,
           repository_candidates !! j = Some candidate /\
           completion_data_ data_and_result = i + j /\
           result_ data_and_result
           = QueryMatchResult matcher candidate query)
      (ranking_loop matcher query (LetterBitsetFromString matcher query)
         repository_candidates i [])
      (map fst
         (List.filter
            (fun dc : CompletionData * Candidate matcher =>
               MatchesQueryBitset matcher dc.2
                 (LetterBitsetFromString matcher query)
               && IsSubsequence matcher
                    (QueryMatchResult matcher dc.2 query))
            (combine rest repository_candidates))).
Proof.
  induction repository_candidates as [| candidate cands IH];
    intros i rest Hrest Hlen.
  - destruct rest; constructor.
  - destruct rest as [| d rest']; [simpl in Hlen; lia |].
    assert (Hd : completion_datas !! i = Some d).
    { specialize (Hrest 0). rewrite Nat.add_0_r in Hrest.
      rewrite <- Hrest. reflexivity. }
    assert (IH' :
      Forall2
        (fun data_and_result d0 =>
           completion_datas !! completion_data_ data_and_result = Some d0 /\
           exists candidate0 j,
             (candidate :: cands) !! j = Some candidate0 /\
             completion_data_ data_and_result = i + j /\
             result_ data_and_result
             = QueryMatchResult matcher candidate0 query)
        (ranking_loop matcher query (LetterBitsetFromString matcher query)
           cands (S i) [])
        (map fst
           (List.filter
              (fun dc : CompletionData * Candidate matcher =>
                 MatchesQueryBitset matcher dc.2
                   (LetterBitsetFromString matcher query)
                 && IsSubsequence matcher
                      (QueryMatchResult matcher dc.2 query))
              (combine rest' cands)))).
    { eapply Forall2_impl.
      - apply (IH (S i) rest').
        + intros j. specialize (Hrest (S j)). simpl in Hrest.
          rewrite Hrest. f_equal. lia.
        + simpl in Hlen. lia.
      - intros dr d0 (H1 & c0 & j & H2 & H3 & H4). split; [exact H1 |].
        exists c0, (S j). split; [exact H2 |]. split; [lia | exact H4]. }
    simpl.
    destruct (MatchesQueryBitset matcher candidate
                (LetterBitsetFromString matcher query)); simpl;
      [| exact IH'].
    destruct (IsSubsequence matcher
                (QueryMatchResult matcher candidate query)); [| exact IH'].
    rewrite ranking_loop_app. simpl. constructor; [| exact IH'].
    simpl. split; [exact Hd |].
    exists candidate, 0. split; [reflexivity |]. split; [lia | reflexivity].
Qed.

(** X20.  [SortCandidatesForQuery] returns, in some order, exactly the
    completion datas whose candidate matches the letters of the query and
    has the query as a subsequence, each as often as it occurs: nothing is
    added, nothing that passes is lost.  This needs the repository to
    return no more candidates than it was given strings, and the sort to
    rearrange. *)
Theorem ranking_keeps_exactly_the_matches
    (query : string) (completion_datas : list CompletionData) :
  (forall l, Permutation (std_sort CompletionDataAndResult_less l) l) ->
  length (GetCandidatesForStrings matcher completion_datas)
  <= length completion_datas ->
  exists ranked,
    SortCandidatesForQuery matcher std_sort query completion_datas
    = Some ranked /\
    Permutation ranked (matching matcher query completion_datas).
Proof.
  intros Hsort Hlen.
  pose proof (ranking_loop_spec query completion_datas
                (GetCandidatesForStrings matcher completion_datas)
                0 completion_datas (fun j => eq_refl) Hlen) as Hloop.
  destruct (Permutation_Forall2
              (Permutation_sym (Hsort _)) Hloop) as (ranked & Hperm & Hranked).
  exists ranked. split.
  - unfold SortCandidatesForQuery. apply mapM_Some.
    eapply Forall2_impl; [exact Hranked |].
    intros dr d [H _]. exact H.
  - symmetry. exact Hperm.
Qed.

(** X21.  [SortCandidatesForQuery] returns its candidates best first: the
    returned completion datas are those of a list of pairs in which no
    pair's result is less than the result of a pair before it, and each
    pair carries the result of the query on the candidate of its
    completion data.  This needs the sort to sort. *)
Theorem ranking_is_ordered_by_result
    (query : string) (completion_datas : list CompletionData) :
  (forall l, Permutation (std_sort CompletionDataAndResult_less l) l) ->
  (forall l,
     StronglySorted
       (fun a b => CompletionDataAndResult_less b a = false)
       (std_sort CompletionDataAndResult_less l)) ->
  length (GetCandidatesForStrings matcher completion_datas)
  <= length completion_datas ->
  exists ranked data_and_results,
    SortCandidatesForQuery matcher std_sort query completion_datas
    = Some ranked /\
    StronglySorted
      (fun a b => Result_less matcher (result_ b) (result_ a) = false)
      data_and_results /\
    Forall2
      (fun data_and_result d =>
         completion_datas !! completion_data_ data_and_result = Some d /\
         exists candidate,
           GetCandidatesForStrings matcher completion_datas
             !! completion_data_ data_and_result = Some candidate /\
           result_ data_and_result
           = QueryMatchResult matcher candidate query)
      data_and_results ranked.
Proof.
  intros Hperm Hsorted Hlen.
  pose proof (ranking_loop_spec query completion_datas
                (GetCandidatesForStrings matcher completion_datas)
                0 completion_datas (fun j => eq_refl) Hlen) as Hloop.
  destruct (Permutation_Forall2
              (Permutation_sym (Hperm _)) Hloop) as (ranked & _ & Hranked).
  exists ranked, (std_sort CompletionDataAndResult_less
                    (ranking_loop matcher query
                       (LetterBitsetFromString matcher query)
                       (GetCandidatesForStrings matcher completion_datas)
                       0 [])).
  split; [| split].
  - unfold SortCandidatesForQuery. apply mapM_Some.
    eapply Forall2_impl; [exact Hranked |].
    intros dr d [H _]. exact H.
  - apply Hsorted.
  - eapply Forall2_impl; [exact Hranked |].
    intros dr d (H1 & c & j & H2 & H3 & H4). split; [exact H1 |].
    exists c. simpl in H3. subst j. split; [exact H2 | exact H4].
Qed.

End RankingProperties.

Lemma sample_insert_permutation {A} (less : A -> A -> bool) (x : A)
    (l : list A) :
  Permutation (sample_insert less x l) (x :: l).
Proof.
  induction l as [| y l IH]; simpl; [reflexivity |].
  destruct (less y x); [| reflexivity].
  rewrite IH. apply perm_swap.
Qed.

Lemma sample_sort_permutation {A} (less : A -> A -> bool) (l : list A) :
  Permutation (sample_sort less l) l.
Proof.
  induction l as [| x l IH]; simpl; [reflexivity |].
  rewrite sample_insert_permutation. rewrite IH. reflexivity.
Qed.

(** Insertion sorts with respect to an ordering that is asymmetric and
    whose incomparability is transitive. *)
Lemma sample_sort_sorted {A} (less : A -> A -> bool) (l : list A) :
  (forall a b, less a b = true -> less b a = false) ->
  (forall a b c, less a c = true -> less a b = true \/ less b c = true) ->
  StronglySorted (fun a b => less b a = false) (sample_sort less l).
Proof.
  intros Hasym Hneg.
  assert (Hinsert : forall x l0,
            StronglySorted (fun a b => less b a = false) l0 ->
            StronglySorted (fun a b => less b a = false)
              (sample_insert less x l0)).
  { intros x l0. induction l0 as [| y l0 IH]; intros Hs; simpl.
    - constructor; constructor.
    - apply StronglySorted_inv in Hs as [Hs Hy].
      destruct (less y x) eqn:E.
      + constructor; [apply IH; exact Hs |].
        eapply Permutation_Forall.
        * symmetry. apply sample_insert_permutation.
        * constructor; [apply Hasym; exact E | exact Hy].
      + constructor; [constructor; assumption |].
        constructor; [exact E |].
        rewrite Forall_forall in Hy |- *. intros b Hb.
        destruct (less b x) eqn:Eb; [| reflexivity].
        destruct (Hneg b y x Eb) as [H | H]; [| congruence].
        rewrite (Hy b Hb) in H. discriminate. }
  induction l as [| x l IH]; simpl; [constructor | apply Hinsert; exact IH].
Qed.

Lemma sample_sort_sorts (l : list (CompletionDataAndResult sample_matcher)) :
  StronglySorted (fun a b => CompletionDataAndResult_less b a = false)
    (sample_sort CompletionDataAndResult_less l).
Proof.
  apply sample_sort_sorted; unfold CompletionDataAndResult_less; simpl.
  - intros a b H. apply Nat.ltb_lt in H. apply Nat.ltb_ge. lia.
  - intros a b c H. apply Nat.ltb_lt in H.
    destruct (Nat.ltb_spec (result_ a) (result_ b)); [auto |].
    right. apply Nat.ltb_lt. lia.
Qed.

Lemma ranking_keeps_exactly_the_matches_witness :
  exists ranked,
    SortCandidatesForQuery sample_matcher sample_sort "fo"
      ["foobar"; "bar"; "foo"] = Some ranked /\
    Permutation ranked ["foobar"; "foo"].
Proof.
  apply (ranking_keeps_exactly_the_matches sample_matcher sample_sort "fo"
           ["foobar"; "bar"; "foo"]).
  - intros l. apply sample_sort_permutation.
  - simpl. lia.
Defined.

Lemma ranking_is_ordered_by_result_witness :
  exists ranked data_and_results,
    SortCandidatesForQuery sample_matcher sample_sort "fo"
      ["foobar"; "bar"; "foo"] = Some ranked /\
    StronglySorted
      (fun a b => Result_less sample_matcher (result_ b) (result_ a) = false)
      data_and_results /\
    Forall2
      (fun data_and_result d =>
         ["foobar"; "bar"; "foo"] !! completion_data_ data_and_result
         = Some d /\
         exists candidate,
           GetCandidatesForStrings sample_matcher ["foobar"; "bar"; "foo"]
             !! completion_data_ data_and_result = Some candidate /\
           result_ data_and_result
           = QueryMatchResult sample_matcher candidate "fo")
      data_and_results ranked.
Proof.
  apply (ranking_is_ordered_by_result sample_matcher sample_sort "fo"
           ["foobar"; "bar"; "foo"]).
  - intros l. apply sample_sort_permutation.
  - apply sample_sort_sorts.
  - simpl. lia.
Defined.

Example sample_ranking :
  SortCandidatesForQuery sample_matcher sample_sort "fo"
    ["foobar"; "bar"; "foo"] = Some ["foo"; "foobar"].
Proof. reflexivity. Qed.

(** ** Sample executions *)

Lemma sample_extracting_execution :
  exists tr sys,
    exec sample_clang (started 1) tr sys /\
    clang_completions_thread_ sys = ClangRun sample_clang_task.
Proof.
  assert (H : option_map (fun x => clang_completions_thread_ x.2)
                (run_moves sample_clang sample_extracting_schedule (started 1))
              = Some (ClangRun sample_clang_task))
    by (vm_compute; reflexivity).
  destruct (run_moves sample_clang sample_extracting_schedule (started 1))
    as [[tr sys] |] eqn:Hrun; simpl in H; [| discriminate H].
  injection H as H. exists tr, sys. split; [| exact H].
  apply run_moves_exec with sample_extracting_schedule. exact Hrun.
Qed.

Lemma sample_parsing_execution :
  exists tr sys,
    exec sample_clang (started 1) tr sys /\
    file_parse_thread_ sys = ParseRun.
Proof.
  assert (H : option_map (fun x => file_parse_thread_ x.2)
                (run_moves sample_clang sample_parsing_schedule (started 1))
              = Some ParseRun)
    by (vm_compute; reflexivity).
  destruct (run_moves sample_clang sample_parsing_schedule (started 1))
    as [[tr sys] |] eqn:Hrun; simpl in H; [| discriminate H].
  injection H as H. exists tr, sys. split; [| exact H].
  apply run_moves_exec with sample_parsing_schedule. exact Hrun.
Qed.

Lemma libclang_threads_exclude_each_other_witness :
  exists tr sys,
    exec sample_clang (started 1) tr sys /\
    clang_access_mutex_ (members sys) = Some ClangCompletionsThread /\
    file_parse_thread_ sys <> ParseRun.
Proof.
  destruct sample_extracting_execution as (tr & sys & Hexec & Hpc).
  destruct (libclang_threads_exclude_each_other sample_clang 1 tr sys Hexec)
    as (_ & Hmine & Hnot & _).
  exists tr, sys. split; [exact Hexec |]. split.
  - exact (Hmine sample_clang_task Hpc).
  - intros Hp. exact (Hnot sample_clang_task (conj Hp Hpc)).
Defined.

Lemma file_parse_thread_always_has_its_task_witness :
  exists tr sys task,
    exec sample_clang (started 1) tr sys /\
    file_parse_task_ (members sys) = Some task /\
    exists sys',
      system_step sample_clang MoveFileParse sys
      = Some (Parsing (ParseRan task), sys').
Proof.
  destruct sample_parsing_execution as (tr & sys & Hexec & Hpc).
  destruct (file_parse_thread_always_has_its_task sample_clang 1 tr sys Hexec)
    as (task & Htask & Hrun).
  - rewrite Hpc. discriminate.
  - exists tr, sys, task. split; [exact Hexec |]. split; [exact Htask |].
    exact (Hrun Hpc).
Defined.

Lemma cache_holds_last_stored_candidates_witness :
  exists sys,
    exec sample_clang (started 1) sample_trace sys /\
    latest_clang_results_ (members sys) = ["foo"; "bar"].
Proof.
  destruct sample_execution as [sys Hexec]. exists sys.
  split; [exact Hexec |].
  exact (cache_holds_last_stored_candidates sample_clang 1 sample_trace sys
           Hexec).
Defined.


Lemma no_ranking_before_first_publication_witness :
  In (Extraction ClangReady) sample_prefix.
Proof.
  destruct sample_execution as [sys Hexec].
  exact (no_ranking_before_first_publication sample_clang 1 sample_trace sys
           Hexec sample_prefix 0 sample_sorting_task false [] eq_refl).
Defined.

(** ** Starting the threads *)


